(** * Framo: deployment resolution, dependency verification and execution

    A shallow embedding of [src/index.ts]: the deployment manifest with its
    templates ([_loadConfig]), the two passes of [_verifyDependencies]
    over the manifest and the declaration cache, and [run] with its three
    caches and the hooks of the runner it drives.  Reading the files
    ([yaml.load], [readdirSync]) is left to the caller: the resolver
    starts from the parsed manifest, the verifier and the executor from
    an instance whose caches are already filled.

    Maps and sets ([Map], [Set], [Dictionary]) are [gmap] and [gset]:
    the code never iterates them, so their insertion order is not
    observable.  Every [assert] is an [AssertionError]; the error kinds of
    the specification are told apart by the expression that was
    asserted. *)

From stdpp Require Import base option list strings gmap fin_maps fin_sets.

Local Open Scope string_scope.
Local Open Scope list_scope.

(** ** Values shared by the manifest and the module declarations *)

(** [T | T[]], the type of every [of] field; [of] is reserved in Rocq, so
    the fields are spelled [of_]. *)
Inductive Arrayable (T : Type) : Type :=
| scalar (x : T)
| array (xs : list T).
Arguments scalar {T} x.
Arguments array {T} xs.

(** [toArray]: [Array.isArray(arr) ? arr : [arr]]. *)
Definition toArray {T : Type} (arr : Arrayable T) : list T :=
  match arr with
  | array xs => xs
  | scalar x => [x]
  end.

(** JavaScript truthiness of a string: only the empty string is falsy. *)
Definition truthy (s : string) : bool :=
  match s with
  | EmptyString => false
  | String _ _ => true
  end.

Module LoadModule.
Record t : Type := mk { name : string; of_ : Arrayable string }.
End LoadModule.

(** An item of [modules]: [string | LoadModule]. *)
Inductive ModuleRef : Type :=
| bare (module : string)
| override (module : LoadModule.t).

Module Dependency.
Record t : Type := mk { name : string; of_ : Arrayable string }.
End Dependency.

Module ModuleConfig.
(** [dependencies] is tested for absence by the verifier, hence optional. *)
Record t : Type := mk {
  version : Z;
  dependencies : option (list Dependency.t);
  name : string
}.
End ModuleConfig.

Module Deployment.
Record t : Type := mk {
  type : string;
  name : string;
  of_ : Arrayable string;
  description : option string;
  modules : list ModuleRef;
  template : option string;
  load : option (list string)
}.
End Deployment.

(** An object of the parsed manifest before it is read at type
    [Deployment]: a template, or a deployment entry that still leans on
    one, sets only some of the fields. *)
Module Partial.
Record t : Type := mk {
  type : option string;
  name : option string;
  of_ : option (Arrayable string);
  description : option string;
  modules : option (list ModuleRef);
  template : option string;
  load : option (list string)
}.

(** The entry at type [Deployment], when its required fields are set. *)
Definition complete (p : t) : option Deployment.t :=
  match type p, name p, of_ p, modules p with
  | Some ty, Some n, Some o, Some ms =>
      Some (Deployment.mk ty n o (description p) ms (template p) (load p))
  | _, _, _, _ => None
  end.
End Partial.

Module DeploymentConfig.
Record t (D : Type) : Type := mk {
  version : Z;
  templates : option (gmap string Partial.t);
  deployment : list D
}.
Arguments mk {D} _ _ _.
Arguments version {D} _.
Arguments templates {D} _.
Arguments deployment {D} _.
End DeploymentConfig.

(** ** Failures *)

(** What [assert(value, message)] throws: the asserted expression and the
    message the call supplied, if any. *)
Record AssertionError : Type := mkAssertionError {
  expression : string;
  message : option string
}.

Definition assert {E : Type} (value : bool) (err : E) : E + unit :=
  if value then inr tt else inl err.

(** Throwing code as a sum: [inl] is the thrown value. *)
#[global] Instance sum_ret {E : Type} : MRet (sum E) := λ A, inr.
#[global] Instance sum_bind {E : Type} : MBind (sum E) :=
  λ A B k m, match m with inl e => inl e | inr a => k a end.

(** [for (const x of xs) body(x)] where [body] may throw. *)
Fixpoint forE {E A : Type} (body : A → E + unit) (xs : list A) : E + unit :=
  match xs with
  | [] => inr tt
  | x :: xs' => body x ;; forE body xs'
  end.

(** [xs.map(f)] where [f] may throw. *)
Fixpoint mapE {E A B : Type} (f : A → E + B) (xs : list A) : E + list B :=
  match xs with
  | [] => inr []
  | x :: xs' => y ← f x; ys ← mapE f xs'; inr (y :: ys)
  end.

(** ** Deployment resolver *)

(** One field of [{...a, ...b}]: the later object wins where it sets it. *)
Definition later {A : Type} (a b : option A) : option A :=
  match b with
  | Some v => Some v
  | None => a
  end.

(** [{...a, ...b}] *)
Definition spread (a b : Partial.t) : Partial.t :=
  Partial.mk
    (later (Partial.type a) (Partial.type b))
    (later (Partial.name a) (Partial.name b))
    (later (Partial.of_ a) (Partial.of_ b))
    (later (Partial.description a) (Partial.description b))
    (later (Partial.modules a) (Partial.modules b))
    (later (Partial.template a) (Partial.template b))
    (later (Partial.load a) (Partial.load b)).

(** The property names a plain object inherits from [Object.prototype]
    (ECMAScript, Annex B included).  The parsed template table is a plain
    object, so [config.templates[template]] finds these names too: each
    holds a function, [__proto__] the prototype itself. *)
Definition objectPrototype : list string :=
  ["constructor"; "__defineGetter__"; "__defineSetter__"; "hasOwnProperty";
   "__lookupGetter__"; "__lookupSetter__"; "isPrototypeOf";
   "propertyIsEnumerable"; "toString"; "valueOf"; "__proto__";
   "toLocaleString"].

(** What [config.templates[template]] evaluates to. *)
Inductive TemplateValue : Type :=
| ownTemplate (t : Partial.t)
| inheritedValue
| undefined.

(** [config.templates[template]]: an own key of the table first, then the
    prototype. *)
Definition getTemplate (templates : gmap string Partial.t)
    (template : string) : TemplateValue :=
  match templates !! template with
  | Some t => ownTemplate t
  | None =>
      if bool_decide (template ∈ objectPrototype) then inheritedValue
      else undefined
  end.

(** The callback of [config.deployment.map] in [_loadConfig].  An
    inherited value is truthy, so it passes the assertion, and it has no
    own enumerable property, so spreading it adds nothing to the entry. *)
Definition expand (templates : option (gmap string Partial.t))
    (service : Partial.t) : AssertionError + Partial.t :=
  match Partial.template service with
  | Some template =>
      if truthy template then
        match templates with
        | None =>
            inl (mkAssertionError "config.templates"
                   (Some ("No template defined, but found a referencing template "
                          +:+ template)))
        | Some ts =>
            match getTemplate ts template with
            | undefined =>
                inl (mkAssertionError "config.templates[template]"
                       (Some ("Expected template " +:+ template
                              +:+ " to be defined on the templates.")))
            | ownTemplate t => inr (spread service t)
            | inheritedValue => inr service
            end
        end
      else inr service
  | None => inr service
  end.

Definition _loadConfig (config : DeploymentConfig.t Partial.t)
    : AssertionError + DeploymentConfig.t Partial.t :=
  deployment ← mapE (expand (DeploymentConfig.templates config))
                 (DeploymentConfig.deployment config);
  inr (DeploymentConfig.mk (DeploymentConfig.version config)
         (DeploymentConfig.templates config) deployment).

(** ** Command aggregator and dependency verifier *)

Definition _moduleName (module : ModuleRef) : string :=
  match module with
  | bare name => name
  | override m => LoadModule.name m
  end.

Definition _getLoadedCommand (deployment : Deployment.t) (module : ModuleRef)
    : list string :=
  match module with
  | bare _ => toArray (Deployment.of_ deployment)
  | override m => toArray (LoadModule.of_ m)
  end.

(** Body of the inner loop of pass one: fetch or create the module's set,
    then add every contributed command to it. *)
Definition addLoaded (deployment : Deployment.t)
    (loadedCommands : gmap string (gset string)) (module : ModuleRef)
    : gmap string (gset string) :=
  let cached := default ∅ (loadedCommands !! _moduleName module) in
  <[_moduleName module :=
      foldl (λ set command, {[command]} ∪ set) cached
        (_getLoadedCommand deployment module)]> loadedCommands.

(** Pass one: the map [loadedCommands] once both loops have finished. *)
Definition loadedCommands (deployment : list Deployment.t)
    : gmap string (gset string) :=
  foldl (λ loaded d, foldl (addLoaded d) loaded (Deployment.modules d))
    ∅ deployment.

(** [cached && cached.has(dependentCommand)] *)
Definition has (cached : option (gset string)) (command : string) : bool :=
  match cached with
  | Some set => bool_decide (command ∈ set)
  | None => false
  end.

Definition dependencyMessage (dependency command : string) : string :=
  "Expected module " +:+ dependency +:+ " command " +:+ command
    +:+ " to be loaded.".

Definition dependencyError (dependency command : string) : AssertionError :=
  mkAssertionError "cached && cached.has(dependentCommand)"
    (Some (dependencyMessage dependency command)).

(** Body of [for (const dependency of config.dependencies)]. *)
Definition checkDependency (loaded : gmap string (gset string))
    (dependency : Dependency.t) : AssertionError + unit :=
  let cached := loaded !! _moduleName (bare (Dependency.name dependency)) in
  forE (λ dependentCommand,
          assert (has cached dependentCommand)
            (dependencyError (Dependency.name dependency) dependentCommand))
       (toArray (Dependency.of_ dependency)).

(** Body of the inner loop of pass two. *)
Definition checkModule (configCache : gmap string ModuleConfig.t)
    (loaded : gmap string (gset string)) (module : ModuleRef)
    : AssertionError + unit :=
  match configCache !! _moduleName module with
  | None => inl (mkAssertionError "config" None)
  | Some config =>
      match ModuleConfig.dependencies config with
      | None | Some [] => inr tt
      | Some dependencies => forE (checkDependency loaded) dependencies
      end
  end.

Definition emptyCacheError : AssertionError :=
  mkAssertionError "this.configCache.size"
    (Some "Expected that config cache has already been loaded.").

(** The instance: its manifest and its three caches.  [R] is the type of
    the registered runners. *)
Record Framo (R : Type) : Type := mkFramo {
  config : option (DeploymentConfig.t Deployment.t);
  configCache : gmap string ModuleConfig.t;
  runnerCache : gmap string R;
  modulePathCache : gmap string string
}.
Arguments mkFramo {R} _ _ _ _.
Arguments config {R} _.
Arguments configCache {R} _.
Arguments runnerCache {R} _.
Arguments modulePathCache {R} _.

Definition _verifyDependencies {R : Type} (this : Framo R)
    : AssertionError + unit :=
  match config this with
  | None => inl (mkAssertionError "this.config" None)
  | Some config =>
      assert (negb (Nat.eqb (size (configCache this)) 0)) emptyCacheError;;
      let loaded := loadedCommands (DeploymentConfig.deployment config) in
      forE (λ deployment,
              forE (checkModule (configCache this) loaded)
                   (Deployment.modules deployment))
           (DeploymentConfig.deployment config)
  end.

(** [s.includes(sub)] *)
Fixpoint includes (sub s : string) : bool :=
  String.prefix sub s ||
  match s with
  | EmptyString => false
  | String _ s' => includes sub s'
  end.

(** An error names [s] when its message contains it. *)
Definition names (e : AssertionError) (s : string) : bool :=
  match message e with
  | Some m => includes s m
  | None => false
  end.

(** ** The rules of the specification, written out

    These definitions do not go through the functions of the class: they
    say what an [of] field, a module reference and an entry stand for. *)

(** The commands of an [of] field as a sequence: a scalar stands for the
    sequence of that one command. *)
Definition commands (of_field : Arrayable string) : list string :=
  match of_field with
  | scalar command => [command]
  | array sequence => sequence
  end.

(** The module a reference lists: the bare string is the name, an override
    pair carries it in [name]. *)
Definition listedName (reference : ModuleRef) : string :=
  match reference with
  | bare name => name
  | override m => LoadModule.name m
  end.

(** What a reference of an entry contributes: a bare name the commands of
    the entry's [of], an override pair the commands of its own [of]
    instead. *)
Definition contribution (entry : Deployment.t) (reference : ModuleRef)
    : list string :=
  match reference with
  | bare _ => commands (Deployment.of_ entry)
  | override m => commands (LoadModule.of_ m)
  end.

(** Command [c] is aggregated for module [X] when some entry of the
    manifest, whichever it is, lists a reference to [X] that contributes
    it. *)
Definition aggregated (deployment : list Deployment.t) (X c : string) : Prop :=
  ∃ d module, d ∈ deployment ∧ module ∈ Deployment.modules d ∧
    listedName module = X ∧ c ∈ contribution d module.

(** ** Runners and the host *)

(** What the executor reaches outside itself: [path.join],
    [String.prototype.toLowerCase], and [require], which may throw and may
    change the world the hooks live in.  The world is everything the
    hooks can touch; the instance and its caches are private to the class
    and not part of it. *)
Class Host : Type := {
  World : Type;
  Artifact : Type;
  Exn : Type;
  path_join : string → string → string;
  toLowerCase : string → string;
  require : string → World → (Exn + Artifact) * World
}.

Module Runner.
(** [interface Runner<T, M>]: either hook may throw (or reject). *)
Record t `{Host} : Type := mk {
  type : string;
  onLoad : Artifact → Deployment.t → World → (Exn + unit) * World;
  run : World → (Exn + unit) * World
}.
End Runner.

Section Executor.
Context `{Host}.

Inductive Error : Type :=
| Assertion (e : AssertionError)
| Thrown (e : Exn).

(** Hook invocations, logged when the hook is entered: the load hook of
    the runner of type [runner] on the artifact required from [path], and
    its run hook. *)
Inductive Event : Type :=
| OnLoad (runner path : string) (deployment : Deployment.t)
| Run (runner : string).

Record State : Type := mkState {
  this : Framo Runner.t;
  world : World;
  trace : list Event
}.

(** An awaited computation: it ends in a value or in a thrown error, and
    what it did to the instance and to the world stays done either way. *)
Definition Action (A : Type) : Type := State → (Error + A) * State.

#[global] Instance Action_ret : MRet Action := λ A a σ, (inr a, σ).
#[global] Instance Action_bind : MBind Action :=
  λ A B k m σ,
    match m σ with
    | (inl e, σ') => (inl e, σ')
    | (inr a, σ') => k a σ'
    end.

Definition throw {A : Type} (e : Error) : Action A := λ σ, (inl e, σ).

Definition read : Action (Framo Runner.t) := λ σ, (inr (this σ), σ).

Definition write (f : Framo Runner.t → Framo Runner.t) : Action unit :=
  λ σ, (inr tt, mkState (f (this σ)) (world σ) (trace σ)).

(** A call into the host that leaves no event. *)
Definition host {A : Type} (f : World → (Exn + A) * World) : Action A :=
  λ σ,
    match f (world σ) with
    | (inl e, w) => (inl (Thrown e), mkState (this σ) w (trace σ))
    | (inr a, w) => (inr a, mkState (this σ) w (trace σ))
    end.

(** A hook invocation: logged, then run on the world. *)
Definition call {A : Type} (ev : Event) (f : World → (Exn + A) * World)
    : Action A :=
  λ σ, host f (mkState (this σ) (world σ) (trace σ ++ [ev])).

(** [for (const x of xs) await body(x)] *)
Fixpoint forA {A : Type} (body : A → Action unit) (xs : list A)
    : Action unit :=
  match xs with
  | [] => mret tt
  | x :: xs' => body x;; forA body xs'
  end.

(** [this.runnerCache.set(runner.type, runner); return this] *)
Definition addRunner (runner : Runner.t) (this : Framo Runner.t)
    : Framo Runner.t :=
  mkFramo (config this) (configCache this)
    (<[Runner.type runner := runner]> (runnerCache this))
    (modulePathCache this).

Definition clearConfigCache (this : Framo Runner.t) : Framo Runner.t :=
  mkFramo (config this) ∅ (runnerCache this) (modulePathCache this).

Definition clearRunnerCache (this : Framo Runner.t) : Framo Runner.t :=
  mkFramo (config this) (configCache this) ∅ (modulePathCache this).

Definition clearModulePathCache (this : Framo Runner.t) : Framo Runner.t :=
  mkFramo (config this) (configCache this) (runnerCache this) ∅.

(** The [toLoad] of the executor's module loop. *)
Definition toLoad (deployment : Deployment.t) (module : ModuleRef)
    : list string :=
  match module with
  | bare _ => toArray (Deployment.of_ deployment)
  | override m => toArray (LoadModule.of_ m)
  end.

(** The path the executor requires for one command of one module. *)
Definition artifactPath (modulePath load : string) : string :=
  path_join modulePath (toLowerCase load).

(** Body of [for (const load of toLoad)]. *)
Definition loadCommand (runner : Runner.t) (deployment : Deployment.t)
    (module : ModuleRef) (load : string) : Action unit :=
  this ← read;
  match modulePathCache this !! _moduleName module with
  | Some modulePath =>
      if truthy modulePath then
        artifact ← host (require (artifactPath modulePath load));
        call (OnLoad (Runner.type runner) (artifactPath modulePath load)
                deployment)
             (Runner.onLoad runner artifact deployment)
      else throw (Assertion (mkAssertionError "modulePath" None))
  | None => throw (Assertion (mkAssertionError "modulePath" None))
  end.

(** Body of [if (deployment.name === name)]. *)
Definition execute (deployment : Deployment.t) : Action unit :=
  this ← read;
  match runnerCache this !! Deployment.type deployment with
  | None => throw (Assertion (mkAssertionError "runner" None))
  | Some runner =>
      write clearRunnerCache;;
      forA (λ module,
              forA (loadCommand runner deployment module)
                   (toLoad deployment module))
           (Deployment.modules deployment);;
      call (Run (Runner.type runner)) (Runner.run runner);;
      write clearModulePathCache
  end.

(** [for (const deployment of this.config.deployment)]: the first entry
    of that name is executed and the method returns. *)
Fixpoint forDeployment (name : string) (deployment : list Deployment.t)
    : Action unit :=
  match deployment with
  | [] => mret tt
  | d :: rest =>
      if decide (Deployment.name d = name) then execute d
      else forDeployment name rest
  end.

(** [run(name, verify)]; [verify] is [None] when the caller omits it. *)
Definition run (name : string) (verify : option bool) : Action unit :=
  this ← read;
  match verify with
  | Some true =>
      match _verifyDependencies this with
      | inl e => throw (Assertion e)
      | inr _ => mret tt
      end
  | Some false | None => mret tt
  end;;
  match config this with
  | None => throw (Assertion (mkAssertionError "this.config" None))
  | Some config =>
      write clearConfigCache;;
      forDeployment name (DeploymentConfig.deployment config)
  end.

End Executor.

(** ** Statements in the words of the specification *)

(** What [{...service, ...template}] holds, field by field: the template's
    value where the template sets the field, the entry's own otherwise. *)
Definition template_wins (service tpl entry : Partial.t) : Prop :=
  Partial.type entry = later (Partial.type service) (Partial.type tpl) ∧
  Partial.name entry = later (Partial.name service) (Partial.name tpl) ∧
  Partial.of_ entry = later (Partial.of_ service) (Partial.of_ tpl) ∧
  Partial.description entry
    = later (Partial.description service) (Partial.description tpl) ∧
  Partial.modules entry
    = later (Partial.modules service) (Partial.modules tpl) ∧
  Partial.template entry
    = later (Partial.template service) (Partial.template tpl) ∧
  Partial.load entry = later (Partial.load service) (Partial.load tpl).

(** Every entry that refers to a template refers to one the template table
    defines. *)
Definition templates_defined (config : DeploymentConfig.t Partial.t) : bool :=
  forallb
    (λ service,
       match Partial.template service with
       | Some t =>
           if truthy t then
             match DeploymentConfig.templates config with
             | Some ts => bool_decide (is_Some (ts !! t))
             | None => false
             end
           else true
       | None => true
       end)
    (DeploymentConfig.deployment config).

(** How one entry of the manifest relates to its resolved form. *)
Definition resolves (templates : option (gmap string Partial.t))
    (service entry : Partial.t) : Prop :=
  match Partial.template service with
  | Some t =>
      if truthy t then
        ∃ ts tpl, templates = Some ts ∧ ts !! t = Some tpl ∧
          template_wins service tpl entry
      else entry = service
  | None => entry = service
  end.

(** Every module listed in any entry has a declaration in the registry. *)
Definition declared (configCache : gmap string ModuleConfig.t)
    (deployment : list Deployment.t) : bool :=
  forallb
    (λ d, forallb
            (λ module, bool_decide (is_Some (configCache !! listedName module)))
            (Deployment.modules d))
    deployment.

(** Every command required by a dependency of a listed module is
    aggregated for the module the dependency names. *)
Definition satisfied (configCache : gmap string ModuleConfig.t)
    (deployment : list Deployment.t) : Prop :=
  ∀ d module config dependencies dependency c,
    d ∈ deployment → module ∈ Deployment.modules d →
    configCache !! listedName module = Some config →
    ModuleConfig.dependencies config = Some dependencies →
    dependency ∈ dependencies →
    c ∈ commands (Dependency.of_ dependency) →
    aggregated deployment (Dependency.name dependency) c.

(** The sequence form of an [of] field, and of every [of] of an entry. *)
Definition sequence (arr : Arrayable string) : Arrayable string :=
  array (toArray arr).

Definition sequenceRef (module : ModuleRef) : ModuleRef :=
  match module with
  | bare name => bare name
  | override m =>
      override (LoadModule.mk (LoadModule.name m) (sequence (LoadModule.of_ m)))
  end.

Definition sequenceDeployment (d : Deployment.t) : Deployment.t :=
  Deployment.mk (Deployment.type d) (Deployment.name d)
    (sequence (Deployment.of_ d)) (Deployment.description d)
    (sequenceRef <$> Deployment.modules d) (Deployment.template d)
    (Deployment.load d).

(** The entry [run] executes: the first one of that name. *)
Definition firstNamed (name : string) (deployment : list Deployment.t)
    : option Deployment.t :=
  head (filter (λ d, Deployment.name d = name) deployment).

(** Verification does not stand in the way of the run: it was not asked
    for, or it passes. *)
Definition verification_passes {R : Type} (verify : option bool)
    (this : Framo R) : Prop :=
  verify = Some true → _verifyDependencies this = inr tt.

(** The load-hook invocations the specification asks for: one per module
    of the entry, in manifest order, and within a module one per command,
    in command order. *)
Definition loadEvents `{Host} (paths : gmap string string)
    (runner : Runner.t) (d : Deployment.t) : list Event :=
  module ← Deployment.modules d;
  load ← toLoad d module;
  [OnLoad (Runner.type runner)
     (artifactPath (default "" (paths !! _moduleName module)) load) d].


(** The path of the artifact a load-hook invocation was given. *)
Definition eventPath `{Host} (ev : Event) : option string :=
  match ev with
  | OnLoad _ path _ => Some path
  | Run _ => None
  end.

(** ** Concrete manifests and registries *)

Module Scenario.

(** Template [T] sets only [modules: [A]]; the entry refers to it and
    sets [modules: [B]] itself. *)
Definition templateT : Partial.t :=
  Partial.mk None None None None (Some [bare "A"]) None None.

Definition entryB : Partial.t :=
  Partial.mk (Some "GraphQL") (Some "BE") (Some (scalar "Query")) None
    (Some [bare "B"]) (Some "T") None.

Definition manifestT : DeploymentConfig.t Partial.t :=
  DeploymentConfig.mk 1 (Some {["T" := templateT]}) [entryB].

(** [Account] depends on nothing; [Member] needs [Account]'s [Query]. *)
Definition account : ModuleConfig.t := ModuleConfig.mk 1 None "Account".

Definition member : ModuleConfig.t :=
  ModuleConfig.mk 1 (Some [Dependency.mk "Account" (scalar "Query")])
    "Member".

Definition registry : gmap string ModuleConfig.t :=
  <["Account" := account]> (<["Member" := member]> ∅).

Definition paths : gmap string string :=
  <["Account" := "modules/account"]> (<["Member" := "modules/member"]> ∅).

(** One entry loads [Account] with [of: Query] and [Member] with the
    entry's [of: Mutation]. *)
Definition entryQuery : Deployment.t :=
  Deployment.mk "GraphQL" "BE" (scalar "Mutation") None
    [override (LoadModule.mk "Account" (scalar "Query")); bare "Member"]
    None None.

(** No entry loads [Account]'s [Query]. *)
Definition entryMutation : Deployment.t :=
  Deployment.mk "GraphQL" "BE" (scalar "Mutation") None
    [bare "Account"; bare "Member"] None None.

(** A second entry, of another runner type. *)
Definition entryRest : Deployment.t :=
  Deployment.mk "Rest" "API" (array ["Endpoint"; "Query"]) None
    [bare "Account"] None None.

Definition manifest (deployment : list Deployment.t)
    : option (DeploymentConfig.t Deployment.t) :=
  Some (DeploymentConfig.mk 1 None deployment).

(** Instances without runners, for the verifier alone. *)
Definition verified : Framo unit :=
  mkFramo (manifest [entryQuery]) registry ∅ paths.

Definition unverified : Framo unit :=
  mkFramo (manifest [entryMutation]) registry ∅ paths.

(** Nothing deployed and nothing scanned. *)
Definition blank : Framo unit := mkFramo (manifest []) ∅ ∅ ∅.

(** [Account] is deployed but only [Member] was scanned. *)
Definition undeclared : Framo unit :=
  mkFramo (manifest [entryRest]) (<["Member" := member]> ∅) ∅ paths.

(** A host for the executor: paths are joined with a slash, ASCII
    letters are lowered, every artifact is found and is its own path,
    and the world counts the load hooks that completed. *)
Definition lowerAscii (a : Ascii.ascii) : Ascii.ascii :=
  let n := Ascii.nat_of_ascii a in
  if Nat.leb 65 n && Nat.leb n 90 then Ascii.ascii_of_nat (n + 32) else a.

Fixpoint lower (s : string) : string :=
  match s with
  | EmptyString => EmptyString
  | String a s' => String (lowerAscii a) (lower s')
  end.

#[local] Instance node : Host := {|
  World := nat;
  Artifact := string;
  Exn := string;
  path_join := λ a b, a +:+ "/" +:+ b;
  toLowerCase := lower;
  require := λ path w, (inr path, w)
|}.

Definition graphql : Runner.t :=
  Runner.mk _ "GraphQL" (λ _ _ w, (inr tt, S w)) (λ w, (inr tt, w)).

(** A runner whose load hook throws. *)
Definition broken : Runner.t :=
  Runner.mk _ "GraphQL" (λ _ _ w, (inl "load failed", w)) (λ w, (inr tt, w)).

(** A runner whose run hook throws. *)
Definition stalled : Runner.t :=
  Runner.mk _ "GraphQL" (λ _ _ w, (inr tt, S w)) (λ w, (inl "run failed", w)).

Definition start (deployment : list Deployment.t)
    (runners : list Runner.t) : State :=
  mkState
    (foldr addRunner (mkFramo (manifest deployment) registry ∅ paths) runners)
    0 [].

End Scenario.

(** ** Module registry *)

Module Dirent.
Record t : Type := mk { name : string; isDirectory : bool }.
End Dirent.

(** What the registry scan reads: [readdirSync(path, {withFileTypes: true})]
    and [yaml.load(fs.readFileSync(path, 'utf8')) as ModuleConfig]; either
    may throw. *)
Class Disk `{Host} : Type := {
  readdirSync : string → Exn + list Dirent.t;
  readModuleConfig : string → Exn + ModuleConfig.t
}.

(** A thrown value of the host, as an error of the class. *)
Definition thrown `{Host} {A : Type} (r : Exn + A) : Error + A :=
  match r with
  | inl e => inl (Thrown e)
  | inr a => inr a
  end.

(** [for (const x of xs)] whose body may throw and updates the instance. *)
Fixpoint forS {E S A : Type} (body : S → A → E + S) (s : S) (xs : list A)
    : E + S :=
  match xs with
  | [] => inr s
  | x :: xs' => s' ← body s x; forS body s' xs'
  end.

(** [.filter((ent) => ent.isDirectory()).map((ent) => ent.name)] *)
Definition moduleDirectories (ents : list Dirent.t) : list string :=
  Dirent.name <$> filter (λ ent, Dirent.isDirectory ent = true) ents.

Definition conflictMessage (name modulePath : string) : string :=
  "Module " +:+ name +:+ " conflict, already found at " +:+ modulePath.

Definition conflictError (name modulePath : string) : AssertionError :=
  mkAssertionError "!hit" (Some (conflictMessage name modulePath)).

(** Where the declaration of the module directory [module] is read. *)
Definition configPathOf `{Host} (modulesPath module : string) : string :=
  path_join (path_join modulesPath module) "config.yml".

(** Body of [for (const module of modules)] in [_loadConfigCache]; the
    parsed declaration is [moduleConfig] here, [config] in the source. *)
Definition scanModule `{Disk} {R : Type} (modulesPath : string)
    (this : Framo R) (module : string) : Error + Framo R :=
  let modulePath := path_join modulesPath module in
  moduleConfig ← thrown (readModuleConfig (path_join modulePath "config.yml"));
  match configCache this !! ModuleConfig.name moduleConfig with
  | Some _ =>
      inl (Assertion
             (conflictError (ModuleConfig.name moduleConfig) modulePath))
  | None =>
      inr (mkFramo (config this)
             (<[ModuleConfig.name moduleConfig := moduleConfig]>
                (configCache this))
             (runnerCache this)
             (<[ModuleConfig.name moduleConfig :=
                  path_join modulesPath module]> (modulePathCache this)))
  end.

(** [_loadConfigCache], on the instance under construction.  A scan that
    throws leaves no instance behind: the constructor throws with it. *)
Definition _loadConfigCache `{Disk} {R : Type} (modulesPath : string)
    (this : Framo R) : Error + Framo R :=
  ents ← thrown (readdirSync modulesPath);
  forS (scanModule modulesPath) this (moduleDirectories ents).

(** The runners registered by a chain [.addRunner(r1).addRunner(r2)...]. *)
Definition addRunners `{Host} (runners : list Runner.t)
    (this : Framo Runner.t) : Framo Runner.t :=
  foldl (λ this runner, addRunner runner this) this runners.

(** The declaration of directory [module] under [modulesPath] reads as
    [moduleConfig]. *)
Definition declares `{Disk} (modulesPath module : string)
    (moduleConfig : ModuleConfig.t) : Prop :=
  readModuleConfig (configPathOf modulesPath module) = inr moduleConfig.

(** Every entry that refers to a template refers to a name that
    [config.templates[template]] finds: a key of the table, or a name every
    plain object inherits. *)
Definition templates_found (config : DeploymentConfig.t Partial.t) : bool :=
  forallb
    (λ service,
       match Partial.template service with
       | Some t =>
           if truthy t then
             match DeploymentConfig.templates config with
             | Some ts =>
                 bool_decide (is_Some (ts !! t))
                 || bool_decide (t ∈ objectPrototype)
             | None => false
             end
           else true
       | None => true
       end)
    (DeploymentConfig.deployment config).

(** No entry of the manifest refers to a template, [template: ""] apart. *)
Definition template_free (config : DeploymentConfig.t Partial.t) : bool :=
  forallb
    (λ service,
       match Partial.template service with
       | Some t => negb (truthy t)
       | None => true
       end)
    (DeploymentConfig.deployment config).

(** No template of the table sets a [template] field of its own. *)
Definition templates_flat (config : DeploymentConfig.t Partial.t) : Prop :=
  ∀ ts name tpl,
    DeploymentConfig.templates config = Some ts → ts !! name = Some tpl →
    Partial.template tpl = None.

(** The runner of an event. *)
Definition eventRunner (ev : Event) : string :=
  match ev with
  | OnLoad runner _ _ => runner
  | Run runner => runner
  end.

(** Every registered runner sits under its own type. *)
Definition keyed `{Host} (this : Framo Runner.t) : Prop :=
  ∀ k runner, runnerCache this !! k = Some runner → Runner.type runner = k.

(** ** The execution of an entry, step by step

    What the specification says the executor does with the matched entry,
    as a function of the world: each load step resolves the module's root
    path, loads the artifact of the lowercased command under it and hands
    it to the load hook; a step that fails ends the execution with its
    error; the run hook is entered once, after every load step has
    succeeded.  Each function gives the outcome, the world after it, and
    the hooks entered. *)

Definition loadStep `{Host} (paths : gmap string string) (runner : Runner.t)
    (d : Deployment.t) (module : ModuleRef) (load : string) (w : World)
    : (Error + unit) * World * list Event :=
  match paths !! listedName module with
  | Some root =>
      if truthy root then
        match require (path_join root (toLowerCase load)) w with
        | (inl e, w1) => (inl (Thrown e), w1, [])
        | (inr artifact, w1) =>
            match Runner.onLoad runner artifact d w1 with
            | (inl e, w2) =>
                (inl (Thrown e), w2,
                 [OnLoad (Runner.type runner)
                    (path_join root (toLowerCase load)) d])
            | (inr _, w2) =>
                (inr tt, w2,
                 [OnLoad (Runner.type runner)
                    (path_join root (toLowerCase load)) d])
            end
        end
      else (inl (Assertion (mkAssertionError "modulePath" None)), w, [])
  | None => (inl (Assertion (mkAssertionError "modulePath" None)), w, [])
  end.

Fixpoint loadSteps `{Host} (paths : gmap string string) (runner : Runner.t)
    (d : Deployment.t) (steps : list (ModuleRef * string)) (w : World)
    : (Error + unit) * World * list Event :=
  match steps with
  | [] => (inr tt, w, [])
  | (module, load) :: rest =>
      match loadStep paths runner d module load w with
      | (inl e, w1, evs) => (inl e, w1, evs)
      | (inr _, w1, evs) =>
          match loadSteps paths runner d rest w1 with
          | (r, w2, evs') => (r, w2, evs ++ evs')
          end
      end
  end.

(** The load steps of an entry: its references in manifest order, each
    with the commands it contributes, in their order. *)
Definition stepsOf (d : Deployment.t) : list (ModuleRef * string) :=
  module ← Deployment.modules d;
  load ← contribution d module;
  [(module, load)].

Definition performed `{Host} (paths : gmap string string) (runner : Runner.t)
    (d : Deployment.t) (w : World) : (Error + unit) * World * list Event :=
  match loadSteps paths runner d (stepsOf d) w with
  | (inl e, w1, evs) => (inl e, w1, evs)
  | (inr _, w1, evs) =>
      match Runner.run runner w1 with
      | (inl e, w2) => (inl (Thrown e), w2, evs ++ [Run (Runner.type runner)])
      | (inr _, w2) => (inr tt, w2, evs ++ [Run (Runner.type runner)])
      end
  end.

(** An outcome of steps, seen from the state they started in. *)
Definition after `{Host} (σ : State)
    (out : (Error + unit) * World * list Event) : (Error + unit) * State :=
  (out.1.1, mkState (this σ) out.1.2 (trace σ ++ out.2)).

(** ** More concrete data *)

Module Fixture.

#[local] Existing Instance Scenario.node.

(** A module root with two module directories and a file; a second root
    in which two directories declare [Account]. *)
#[local] Instance disk : @Disk Scenario.node := {|
  readdirSync := λ path,
    if decide (path = "modules") then
      inr [Dirent.mk "account" true; Dirent.mk "README.md" false;
           Dirent.mk "member" true]
    else if decide (path = "clash") then
      inr [Dirent.mk "account" true; Dirent.mk "billing" true]
    else inl ("ENOENT" : @Exn Scenario.node);
  readModuleConfig := λ path,
    if decide (path = "modules/account/config.yml") then inr Scenario.account
    else if decide (path = "modules/member/config.yml") then
      inr Scenario.member
    else if decide (path = "clash/account/config.yml") then
      inr Scenario.account
    else if decide (path = "clash/billing/config.yml") then
      inr Scenario.account
    else inl ("ENOENT" : @Exn Scenario.node)
|}.

(** The instance before the scan and before any runner is added. *)
Definition fresh (deployment : list Deployment.t) : Framo Runner.t :=
  mkFramo (Scenario.manifest deployment) ∅ ∅ ∅.

(** A template that refers to another template. *)
Definition nested : DeploymentConfig.t Partial.t :=
  DeploymentConfig.mk 1
    (Some (<["T" := Partial.mk None None None None (Some [bare "A"])
                      (Some "U") None]> ∅))
    [Scenario.entryB].

(** An entry whose template name is only found on the prototype of the
    table, then an entry that refers to a template found nowhere. *)
Definition dangling : DeploymentConfig.t Partial.t :=
  DeploymentConfig.mk 1 (Some (<["T" := Scenario.templateT]> ∅))
    [Scenario.entryB;
     Partial.mk (Some "Rest") (Some "Web") None None None (Some "constructor")
       None;
     Partial.mk (Some "Rest") (Some "API") None None None (Some "Wallet") None].

(** An entry whose second module was never scanned. *)
Definition entryGhost : Deployment.t :=
  Deployment.mk "GraphQL" "BE" (scalar "Query") None
    [bare "Account"; bare "Ghost"] None None.

(** A runner of another type. *)
Definition rest : Runner.t :=
  Runner.mk _ "Rest" (λ _ _ w, (inr tt, S w)) (λ w, (inr tt, w)).

End Fixture.

(** * Properties *)

(** ** Throwing loops *)

Lemma bind_inr {E A B : Type} (m : E + A) (k : A → E + B) (b : B) :
  m ≫= k = inr b ↔ ∃ a, m = inr a ∧ k a = inr b.
Proof.
  destruct m as [e|a]; simpl; split.
  - discriminate.
  - intros (a & Ha & _); discriminate.
  - eauto.
  - intros (a' & Ha & Hk); by simplify_eq.
Qed.

Lemma mapE_inr {E A B : Type} (f : A → E + B) (xs : list A) (ys : list B) :
  mapE f xs = inr ys ↔ Forall2 (λ x y, f x = inr y) xs ys.
Proof.
  revert ys; induction xs as [|x xs IH]; intros ys; simpl.
  - split; [intros [= <-]; constructor | by inversion 1].
  - rewrite bind_inr. split.
    + intros (y & Hy & Hrest). apply bind_inr in Hrest as (ys' & Hys & [= <-]).
      constructor; [done | by apply IH].
    + inversion 1 as [|? y ? ys' Hy Hys]; subst.
      exists y; split; [done|]. apply bind_inr. exists ys'.
      split; [by apply IH | done].
Qed.

Lemma forE_inr {E A : Type} (body : A → E + unit) (xs : list A) :
  forE body xs = inr tt ↔ ∀ x, x ∈ xs → body x = inr tt.
Proof.
  induction xs as [|x xs IH]; simpl.
  - split; [intros _ x Hx; by apply elem_of_nil in Hx | done].
  - rewrite bind_inr. split.
    + intros ([] & Hx & Hrest) y Hy. apply elem_of_cons in Hy as [->|Hy]; [done|].
      by apply IH.
    + intros Hall. exists tt. split; [apply Hall; left|].
      apply IH. intros y Hy. apply Hall. by right.
Qed.

(** A loop that throws throws what its body threw at the first element on
    which it throws. *)
Lemma forE_inl {E A : Type} (body : A → E + unit) (xs : list A) (e : E) :
  forE body xs = inl e →
  ∃ before x after, xs = before ++ x :: after ∧
    (∀ y, y ∈ before → body y = inr tt) ∧ body x = inl e.
Proof.
  induction xs as [|x xs IH]; simpl; [discriminate|].
  destruct (body x) as [e'|[]] eqn:Hx; simpl.
  - intros [= <-]. exists [], x, xs. split_and!; [done| |done].
    intros y Hy; by apply elem_of_nil in Hy.
  - intros (before & y & after & -> & Hb & Hy)%IH.
    exists (x :: before), y, after. split_and!; [done| |done].
    intros z [->|Hz]%elem_of_cons; [done | by apply Hb].
Qed.

(** ** C1: template expansion *)

Lemma spread_template_wins (service tpl : Partial.t) :
  template_wins service tpl (spread service tpl).
Proof. by repeat split. Qed.

Lemma expand_defined (templates : option (gmap string Partial.t))
    (service : Partial.t) :
  match Partial.template service with
  | Some t =>
      if truthy t then
        match templates with
        | Some ts => bool_decide (is_Some (ts !! t))
        | None => false
        end
      else true
  | None => true
  end = true →
  ∃ entry, expand templates service = inr entry ∧
    resolves templates service entry.
Proof.
  unfold expand, resolves, getTemplate.
  destruct (Partial.template service) as [t|]; [|eauto].
  destruct (truthy t); [|eauto].
  destruct templates as [ts|]; [|discriminate].
  intros [tpl Htpl]%bool_decide_eq_true. rewrite Htpl.
  eexists; split; [done|]. exists ts, tpl. eauto using spread_template_wins.
Qed.

(** C1 (as the code has it): when every referenced template is defined,
    resolution returns a manifest whose entries are, one for one, the
    entries of the input; an entry without a (non-empty) [template] is
    passed through, and an entry with one becomes the shallow merge in
    which each field the template sets takes the template's value and only
    the fields the template leaves unset keep the entry's own. *)
Theorem C1_template_fields_take_precedence
    (config : DeploymentConfig.t Partial.t) :
  templates_defined config = true →
  ∃ resolved, _loadConfig config = inr resolved ∧
    Forall2 (resolves (DeploymentConfig.templates config))
      (DeploymentConfig.deployment config)
      (DeploymentConfig.deployment resolved).
Proof.
  unfold templates_defined, _loadConfig.
  destruct config as [version templates deployment]; simpl.
  intros Hdef.
  assert (∃ entries, mapE (expand templates) deployment = inr entries ∧
            Forall2 (resolves templates) deployment entries)
    as (entries & Hentries & Hresolved).
  { induction deployment as [|service rest IH]; simpl; [by eauto|].
    simpl in Hdef. apply andb_prop in Hdef as [Hservice Hrest].
    destruct (expand_defined templates service Hservice)
      as (entry & -> & Hentry).
    destruct (IH Hrest) as (entries & -> & Hentries). simpl.
    eexists; split; [done|]. by constructor. }
  rewrite Hentries. simpl. eexists; split; [done|]. done.
Qed.

Lemma C1_template_fields_take_precedence_witness :
  templates_defined Scenario.manifestT = true ∧
  ∃ resolved, _loadConfig Scenario.manifestT = inr resolved ∧
    Forall2 (resolves (DeploymentConfig.templates Scenario.manifestT))
      (DeploymentConfig.deployment Scenario.manifestT)
      (DeploymentConfig.deployment resolved).
Proof.
  split; [vm_compute; reflexivity|].
  apply (C1_template_fields_take_precedence Scenario.manifestT).
  vm_compute; reflexivity.
Defined.

(** C1 (as stated) fails: with template [{modules: [A]}] and entry
    [{template: T, modules: [B]}] the resolved entry has [modules: [A]],
    not [modules: [B]]. *)
Lemma C1_entry_fields_do_not_survive :
  ∃ resolved entry,
    _loadConfig Scenario.manifestT = inr resolved ∧
    DeploymentConfig.deployment resolved = [entry] ∧
    Partial.modules entry = Some [bare "A"] ∧
    Partial.modules entry ≠ Some [bare "B"].
Proof.
  eexists _, _. split_and!; [vm_compute; reflexivity | reflexivity | reflexivity |].
  discriminate.
Qed.

(** ** The functions of the class follow the rules *)

Lemma toArray_commands (of_field : Arrayable string) :
  toArray of_field = commands of_field.
Proof. by destruct of_field. Qed.

Lemma _moduleName_listedName (module : ModuleRef) :
  _moduleName module = listedName module.
Proof. by destruct module. Qed.

Lemma _getLoadedCommand_contribution (d : Deployment.t) (module : ModuleRef) :
  _getLoadedCommand d module = contribution d module.
Proof. destruct module; simpl; apply toArray_commands. Qed.

Lemma toLoad_contribution (d : Deployment.t) (module : ModuleRef) :
  toLoad d module = contribution d module.
Proof. destruct module; simpl; apply toArray_commands. Qed.

(** ** Pass one: what the aggregated map holds *)

Lemma has_true (cached : option (gset string)) (c : string) :
  has cached c = true ↔ ∃ set, cached = Some set ∧ c ∈ set.
Proof.
  destruct cached as [set|]; simpl.
  - rewrite bool_decide_eq_true. naive_solver.
  - naive_solver.
Qed.

Lemma elem_of_added (cmds : list string) (set : gset string) (c : string) :
  c ∈ foldl (λ set command, {[command]} ∪ set) set cmds ↔ c ∈ cmds ∨ c ∈ set.
Proof.
  revert set; induction cmds as [|x cmds IH]; intros set; simpl.
  - rewrite elem_of_nil. naive_solver.
  - rewrite IH, elem_of_cons. set_solver.
Qed.

Lemma addLoaded_is_Some d loaded module X :
  is_Some (addLoaded d loaded module !! X) ↔
    is_Some (loaded !! X) ∨ _moduleName module = X.
Proof.
  unfold addLoaded. destruct (decide (_moduleName module = X)) as [->|Hne].
  - rewrite lookup_insert_eq. naive_solver.
  - rewrite lookup_insert_ne by done. naive_solver.
Qed.

Lemma addLoaded_has d loaded module X c :
  has (addLoaded d loaded module !! X) c = true ↔
    has (loaded !! X) c = true ∨
    (_moduleName module = X ∧ c ∈ _getLoadedCommand d module).
Proof.
  unfold addLoaded. destruct (decide (_moduleName module = X)) as [->|Hne].
  - rewrite lookup_insert_eq. unfold has at 1.
    rewrite bool_decide_eq_true, elem_of_added.
    destruct (loaded !! X) as [set|]; unfold has, default.
    + rewrite bool_decide_eq_true. naive_solver.
    + set_solver.
  - rewrite lookup_insert_ne by done. naive_solver.
Qed.

Lemma modules_is_Some d ms loaded X :
  is_Some (foldl (addLoaded d) loaded ms !! X) ↔
    is_Some (loaded !! X) ∨ ∃ module, module ∈ ms ∧ _moduleName module = X.
Proof.
  revert loaded; induction ms as [|m ms IH]; intros loaded; simpl.
  - setoid_rewrite elem_of_nil. naive_solver.
  - rewrite IH, addLoaded_is_Some. setoid_rewrite elem_of_cons. naive_solver.
Qed.

Lemma modules_has d ms loaded X c :
  has (foldl (addLoaded d) loaded ms !! X) c = true ↔
    has (loaded !! X) c = true ∨
    ∃ module, module ∈ ms ∧ _moduleName module = X ∧
      c ∈ _getLoadedCommand d module.
Proof.
  revert loaded; induction ms as [|m ms IH]; intros loaded; simpl.
  - setoid_rewrite elem_of_nil. naive_solver.
  - rewrite IH, addLoaded_has. setoid_rewrite elem_of_cons. naive_solver.
Qed.

(** Module [X] is listed by some entry of the manifest. *)
Lemma deployments_is_Some ds loaded X :
  is_Some (foldl (λ loaded d, foldl (addLoaded d) loaded (Deployment.modules d))
             loaded ds !! X) ↔
    is_Some (loaded !! X) ∨
    ∃ d module, d ∈ ds ∧ module ∈ Deployment.modules d ∧
      _moduleName module = X.
Proof.
  revert loaded; induction ds as [|d ds IH]; intros loaded; simpl.
  - setoid_rewrite elem_of_nil. naive_solver.
  - rewrite IH, modules_is_Some. setoid_rewrite elem_of_cons. naive_solver.
Qed.

Lemma deployments_has ds loaded X c :
  has (foldl (λ loaded d, foldl (addLoaded d) loaded (Deployment.modules d))
         loaded ds !! X) c = true ↔
    has (loaded !! X) c = true ∨ aggregated ds X c.
Proof.
  unfold aggregated. setoid_rewrite <-_moduleName_listedName.
  setoid_rewrite <-_getLoadedCommand_contribution.
  revert loaded; induction ds as [|d ds IH]; intros loaded; simpl.
  - setoid_rewrite elem_of_nil. naive_solver.
  - rewrite IH, modules_has. setoid_rewrite elem_of_cons. naive_solver.
Qed.

Lemma loadedCommands_is_Some ds X :
  is_Some (loadedCommands ds !! X) ↔
    ∃ d module, d ∈ ds ∧ module ∈ Deployment.modules d ∧
      _moduleName module = X.
Proof.
  unfold loadedCommands. rewrite deployments_is_Some, lookup_empty.
  split; [intros [[? [=]]|]; done | eauto].
Qed.

Lemma loadedCommands_has ds X c :
  has (loadedCommands ds !! X) c = true ↔ aggregated ds X c.
Proof.
  unfold loadedCommands. rewrite deployments_has, lookup_empty. simpl.
  naive_solver.
Qed.

(** ** C8: aggregation does not depend on the order of the entries *)

Lemma aggregated_permutation ds ds' X c :
  ds ≡ₚ ds' → aggregated ds X c → aggregated ds' X c.
Proof.
  intros Hperm (d & module & Hd & Hrest). exists d, module.
  split; [by rewrite <-Hperm | done].
Qed.

(** C8: permuting the deployment entries of a manifest leaves the map
    computed by pass one of verification unchanged. *)
Theorem C8_aggregation_commutative (ds ds' : list Deployment.t) :
  ds ≡ₚ ds' → loadedCommands ds = loadedCommands ds'.
Proof.
  intros Hperm. apply map_eq; intros X.
  destruct (loadedCommands ds !! X) as [set|] eqn:Hset;
    destruct (loadedCommands ds' !! X) as [set'|] eqn:Hset'.
  - f_equal. apply set_eq; intros c.
    pose proof (loadedCommands_has ds X c) as Hl.
    pose proof (loadedCommands_has ds' X c) as Hr.
    rewrite Hset in Hl. rewrite Hset' in Hr. unfold has in Hl, Hr.
    rewrite bool_decide_eq_true in Hl, Hr. rewrite Hl, Hr.
    split; apply aggregated_permutation; [done | by symmetry].
  - assert (is_Some (loadedCommands ds' !! X)) as [? ?]; [|congruence].
    apply loadedCommands_is_Some.
    assert (is_Some (loadedCommands ds !! X)) as Hs by (rewrite Hset; eauto).
    apply loadedCommands_is_Some in Hs as (d & module & Hd & Hrest).
    exists d, module. split; [by rewrite <-Hperm | done].
  - assert (is_Some (loadedCommands ds !! X)) as [? ?]; [|congruence].
    apply loadedCommands_is_Some.
    assert (is_Some (loadedCommands ds' !! X)) as Hs by (rewrite Hset'; eauto).
    apply loadedCommands_is_Some in Hs as (d & module & Hd & Hrest).
    exists d, module. split; [by rewrite Hperm | done].
  - done.
Qed.

Lemma C8_aggregation_commutative_witness :
  [Scenario.entryQuery; Scenario.entryRest]
    ≡ₚ [Scenario.entryRest; Scenario.entryQuery] ∧
  loadedCommands [Scenario.entryQuery; Scenario.entryRest]
    = loadedCommands [Scenario.entryRest; Scenario.entryQuery].
Proof.
  split; [apply perm_swap|].
  apply (C8_aggregation_commutative
           [Scenario.entryQuery; Scenario.entryRest]
           [Scenario.entryRest; Scenario.entryQuery]).
  apply perm_swap.
Defined.

(** ** Pass two *)

Lemma assert_inr {E : Type} (value : bool) (err : E) :
  assert value err = inr tt ↔ value = true.
Proof. destruct value; simpl; naive_solver. Qed.

Lemma checkDependency_inr loaded dependency :
  checkDependency loaded dependency = inr tt ↔
    ∀ c, c ∈ toArray (Dependency.of_ dependency) →
      has (loaded !! Dependency.name dependency) c = true.
Proof.
  unfold checkDependency. rewrite forE_inr. simpl.
  by setoid_rewrite assert_inr.
Qed.

Lemma checkModule_inr configCache loaded module :
  checkModule configCache loaded module = inr tt ↔
    ∃ config, configCache !! _moduleName module = Some config ∧
      ∀ dependencies dependency c,
        ModuleConfig.dependencies config = Some dependencies →
        dependency ∈ dependencies →
        c ∈ toArray (Dependency.of_ dependency) →
        has (loaded !! Dependency.name dependency) c = true.
Proof.
  unfold checkModule.
  destruct (configCache !! _moduleName module) as [config|]; [|naive_solver].
  destruct (ModuleConfig.dependencies config) as [[|dep deps]|] eqn:Hdeps.
  - split; [|done]. intros _. exists config. split; [done|].
    intros ? ? ? Hd Hin. rewrite Hdeps in Hd. simplify_eq.
    by apply elem_of_nil in Hin.
  - rewrite forE_inr. setoid_rewrite checkDependency_inr. split.
    + intros Hall. exists config. split; [done|].
      intros ? ? ? Hd. rewrite Hdeps in Hd. simplify_eq. eauto.
    + intros (? & [= <-] & Hall). eauto.
  - split; [|done]. intros _. exists config. split; [done|].
    intros ? ? ? Hd. rewrite Hdeps in Hd. discriminate.
Qed.

Lemma declared_true configCache ds :
  declared configCache ds = true ↔
    ∀ d module, d ∈ ds → module ∈ Deployment.modules d →
      is_Some (configCache !! _moduleName module).
Proof.
  unfold declared. rewrite forallb_forall. setoid_rewrite forallb_forall.
  setoid_rewrite bool_decide_eq_true. setoid_rewrite <-list_elem_of_In.
  naive_solver.
Qed.

Lemma size_nonzero {R : Type} (this : Framo R) :
  size (configCache this) ≠ 0 →
  assert (negb (Nat.eqb (size (configCache this)) 0)) emptyCacheError = inr tt.
Proof. intros Hsize. apply assert_inr. by destruct (size (configCache this)). Qed.

(** Verification passes exactly when the manifest is set, the registry is
    not empty, and every listed module passes the check of pass two. *)
Lemma _verifyDependencies_inr {R : Type} (this : Framo R) :
  _verifyDependencies this = inr tt ↔
    ∃ cfg, config this = Some cfg ∧ size (configCache this) ≠ 0 ∧
      ∀ d module, d ∈ DeploymentConfig.deployment cfg →
        module ∈ Deployment.modules d →
        checkModule (configCache this)
          (loadedCommands (DeploymentConfig.deployment cfg)) module = inr tt.
Proof.
  unfold _verifyDependencies.
  destruct (config this) as [cfg|]; [|naive_solver].
  destruct (size (configCache this)) as [|n] eqn:Hsize; simpl.
  - naive_solver.
  - rewrite forE_inr. setoid_rewrite forE_inr. naive_solver.
Qed.

(** ** C2: when verification succeeds *)

(** C2 (as the code has it): for a registry that holds at least one
    declaration and declares every deployed module, verification succeeds
    if and only if every command of every dependency of every listed
    module is in the set aggregated for the dependency's module over all
    entries of the manifest. *)
Theorem C2_verification_iff_satisfied {R : Type} (this : Framo R)
    (cfg : DeploymentConfig.t Deployment.t) :
  config this = Some cfg →
  size (configCache this) ≠ 0 →
  declared (configCache this) (DeploymentConfig.deployment cfg) = true →
  _verifyDependencies this = inr tt ↔
    satisfied (configCache this) (DeploymentConfig.deployment cfg).
Proof.
  intros Hcfg Hsize Hdecl. rewrite _verifyDependencies_inr. split.
  - intros (cfg' & Hcfg' & _ & Hall). simplify_eq.
    intros d module config deps dep c Hd Hm Hconfig Hdeps Hdep Hc.
    rewrite <-_moduleName_listedName in Hconfig.
    rewrite <-toArray_commands in Hc.
    apply loadedCommands_has.
    destruct (proj1 (checkModule_inr _ _ _) (Hall d module Hd Hm))
      as (config' & Hconfig' & Hhas).
    simplify_eq. eauto.
  - intros Hsat. exists cfg. split_and!; [done..|].
    intros d module Hd Hm. apply checkModule_inr.
    destruct (proj1 (declared_true _ _) Hdecl d module Hd Hm)
      as [config Hconfig].
    exists config. split; [done|]. intros deps dep c Hdeps Hdep Hc.
    rewrite _moduleName_listedName in Hconfig.
    rewrite toArray_commands in Hc.
    apply loadedCommands_has. by eapply Hsat.
Qed.

Lemma C2_verification_iff_satisfied_witness :
  config Scenario.verified
    = Some (DeploymentConfig.mk 1 None [Scenario.entryQuery]) ∧
  size (configCache Scenario.verified) ≠ 0 ∧
  declared (configCache Scenario.verified) [Scenario.entryQuery] = true ∧
  (_verifyDependencies Scenario.verified = inr tt ↔
     satisfied (configCache Scenario.verified) [Scenario.entryQuery]).
Proof.
  split_and!; [reflexivity | vm_compute; discriminate | vm_compute; reflexivity |].
  apply (C2_verification_iff_satisfied Scenario.verified
           (DeploymentConfig.mk 1 None [Scenario.entryQuery]));
    [reflexivity | vm_compute; discriminate | vm_compute; reflexivity].
Defined.

(** C2 (as stated) fails: with nothing deployed and nothing scanned every
    deployed module is declared and every dependency is satisfied, yet
    verification fails on the registry being empty. *)
Lemma C2_empty_registry_fails :
  declared (configCache Scenario.blank) [] = true ∧
  satisfied (configCache Scenario.blank) [] ∧
  config Scenario.blank = Some (DeploymentConfig.mk 1 None []) ∧
  _verifyDependencies Scenario.blank = inl emptyCacheError ∧
  ¬ (_verifyDependencies Scenario.blank = inr tt ↔
       satisfied (configCache Scenario.blank) []).
Proof.
  assert (satisfied (configCache Scenario.blank) []) as Hsat.
  { intros d ? ? ? ? ? Hd. by apply elem_of_nil in Hd. }
  split_and!; [reflexivity | exact Hsat | reflexivity | vm_compute; reflexivity |].
  intros [_ Hok]. specialize (Hok Hsat). vm_compute in Hok. discriminate.
Qed.

(** ** C10: an undeclared module fails verification *)

(** C10: when some entry of the manifest lists a module that has no
    declaration in the registry, verification fails, whatever that
    module would have depended on. *)
Theorem C10_undeclared_module_fails {R : Type} (this : Framo R)
    (cfg : DeploymentConfig.t Deployment.t) (i j : nat) (d : Deployment.t)
    (module : ModuleRef) :
  config this = Some cfg →
  DeploymentConfig.deployment cfg !! i = Some d →
  Deployment.modules d !! j = Some module →
  configCache this !! _moduleName module = None →
  ∃ e, _verifyDependencies this = inl e.
Proof.
  intros Hcfg Hd Hm Hnone.
  destruct (_verifyDependencies this) as [e|[]] eqn:Hv; [eauto|].
  apply _verifyDependencies_inr in Hv as (cfg' & Hcfg' & _ & Hall).
  simplify_eq.
  destruct (proj1 (checkModule_inr _ _ _)
              (Hall d module (list_elem_of_lookup_2 _ _ _ Hd)
                 (list_elem_of_lookup_2 _ _ _ Hm)))
    as (config & Hconfig & _).
  congruence.
Qed.

Lemma C10_undeclared_module_fails_witness :
  config Scenario.undeclared
    = Some (DeploymentConfig.mk 1 None [Scenario.entryRest]) ∧
  [Scenario.entryRest] !! 0 = Some Scenario.entryRest ∧
  Deployment.modules Scenario.entryRest !! 0 = Some (bare "Account") ∧
  configCache Scenario.undeclared !! _moduleName (bare "Account") = None ∧
  ∃ e, _verifyDependencies Scenario.undeclared = inl e.
Proof.
  split_and!; [reflexivity | reflexivity | reflexivity | vm_compute; reflexivity |].
  apply (C10_undeclared_module_fails Scenario.undeclared
           (DeploymentConfig.mk 1 None [Scenario.entryRest]) 0 0
           Scenario.entryRest (bare "Account"));
    [reflexivity | reflexivity | reflexivity | vm_compute; reflexivity].
Defined.

(** ** C6: what the dependency error names *)

Lemma prefix_append (sub rest : string) : String.prefix sub (sub +:+ rest) = true.
Proof.
  induction sub as [|a sub IH]; simpl; [by destruct rest|].
  by destruct (Ascii.ascii_dec a a).
Qed.

Lemma includes_here (sub s : string) :
  String.prefix sub s = true → includes sub s = true.
Proof. intros Hp. destruct s; cbn [includes]; by rewrite Hp. Qed.

Lemma includes_append_l (sub before s : string) :
  includes sub s = true → includes sub (before +:+ s) = true.
Proof.
  intros Hs. induction before as [|a before IH]; simpl; [done|].
  rewrite IH. apply orb_true_r.
Qed.

Lemma dependencyError_names (dependency command : string) :
  names (dependencyError dependency command) dependency = true ∧
  names (dependencyError dependency command) command = true.
Proof.
  unfold names, dependencyError, dependencyMessage; simpl message. split.
  - apply includes_append_l, includes_here, prefix_append.
  - do 3 apply includes_append_l. apply includes_here, prefix_append.
Qed.

Lemma assert_inl {E : Type} (value : bool) (err e : E) :
  assert value err = inl e → value = false ∧ e = err.
Proof. destruct value; simpl; naive_solver. Qed.

Lemma checkDependency_inl loaded dependency e :
  checkDependency loaded dependency = inl e →
  ∃ c, c ∈ toArray (Dependency.of_ dependency) ∧
    has (loaded !! Dependency.name dependency) c = false ∧
    e = dependencyError (Dependency.name dependency) c.
Proof.
  unfold checkDependency.
  intros (before & c & after & Heq & _ & [Hhas ->]%assert_inl)%forE_inl.
  exists c. split_and!; [|done..]. rewrite Heq. set_solver.
Qed.

Lemma checkModule_inl configCache loaded module e :
  checkModule configCache loaded module = inl e →
  (configCache !! _moduleName module = None ∧
   e = mkAssertionError "config" None) ∨
  ∃ config dependencies dependency c,
    configCache !! _moduleName module = Some config ∧
    ModuleConfig.dependencies config = Some dependencies ∧
    dependency ∈ dependencies ∧
    c ∈ toArray (Dependency.of_ dependency) ∧
    has (loaded !! Dependency.name dependency) c = false ∧
    e = dependencyError (Dependency.name dependency) c.
Proof.
  unfold checkModule.
  destruct (configCache !! _moduleName module) as [config|];
    [|intros [= <-]; by left].
  destruct (ModuleConfig.dependencies config) as [[|dep deps]|] eqn:Hdeps;
    [discriminate| |discriminate].
  intros (before & dependency & after & Heq & _ & Hdep)%forE_inl.
  apply checkDependency_inl in Hdep as (c & Hc & Hhas & ->).
  right. exists config, (dep :: deps), dependency, c.
  split_and!; [done..| |done|done|done]. rewrite Heq. set_solver.
Qed.

(** C6 (as the code has it): when verification fails, it fails on one of
    its three guards (no manifest, an empty registry, a listed module
    without declaration) or on a missing command; in the last case the
    failing dependency [{name: X, of: C}] belongs to a listed module, the
    command [c] of [C] is not aggregated for [X], and the error message is
    [Expected module X command c to be loaded.], which names the
    dependency's name and the missing command. *)
Theorem C6_dependency_error_names_dependency_and_command {R : Type}
    (this : Framo R) (e : AssertionError) :
  _verifyDependencies this = inl e →
  e = mkAssertionError "this.config" None ∨
  e = emptyCacheError ∨
  e = mkAssertionError "config" None ∨
  ∃ cfg d module declaration dependencies dependency c,
    config this = Some cfg ∧
    d ∈ DeploymentConfig.deployment cfg ∧
    module ∈ Deployment.modules d ∧
    configCache this !! _moduleName module = Some declaration ∧
    ModuleConfig.dependencies declaration = Some dependencies ∧
    dependency ∈ dependencies ∧
    c ∈ toArray (Dependency.of_ dependency) ∧
    ¬ aggregated (DeploymentConfig.deployment cfg)
        (Dependency.name dependency) c ∧
    message e = Some (dependencyMessage (Dependency.name dependency) c) ∧
    names e (Dependency.name dependency) = true ∧
    names e c = true.
Proof.
  unfold _verifyDependencies.
  destruct (config this) as [cfg|]; [|intros [= <-]; by left].
  destruct (size (configCache this)) as [|n]; simpl;
    [intros [= <-]; right; by left|].
  intros (? & d & ? & Hd & _ & Hmod)%forE_inl.
  apply forE_inl in Hmod as (? & module & ? & Hm & _ & Hcheck).
  apply checkModule_inl in Hcheck
    as [[_ ->]|(config & deps & dep & c & Hconfig & Hdeps & Hdep & Hc & Hhas & ->)];
    [right; right; by left|].
  do 3 right. exists cfg, d, module, config, deps, dep, c.
  destruct (dependencyError_names (Dependency.name dep) c) as [Hn Hcmd].
  split_and!; try done.
  - rewrite Hd. set_solver.
  - rewrite Hm. set_solver.
  - intros Hagg%loadedCommands_has. congruence.
Qed.

Lemma C6_dependency_error_names_dependency_and_command_witness :
  _verifyDependencies Scenario.unverified
    = inl (dependencyError "Account" "Query") ∧
  (dependencyError "Account" "Query" = mkAssertionError "this.config" None ∨
   dependencyError "Account" "Query" = emptyCacheError ∨
   dependencyError "Account" "Query" = mkAssertionError "config" None ∨
   ∃ cfg d module declaration dependencies dependency c,
     config Scenario.unverified = Some cfg ∧
     d ∈ DeploymentConfig.deployment cfg ∧
     module ∈ Deployment.modules d ∧
     configCache Scenario.unverified !! _moduleName module = Some declaration ∧
     ModuleConfig.dependencies declaration = Some dependencies ∧
     dependency ∈ dependencies ∧
     c ∈ toArray (Dependency.of_ dependency) ∧
     ¬ aggregated (DeploymentConfig.deployment cfg)
         (Dependency.name dependency) c ∧
     message (dependencyError "Account" "Query")
       = Some (dependencyMessage (Dependency.name dependency) c) ∧
     names (dependencyError "Account" "Query") (Dependency.name dependency)
       = true ∧
     names (dependencyError "Account" "Query") c = true).
Proof.
  split; [vm_compute; reflexivity|].
  apply (C6_dependency_error_names_dependency_and_command
           Scenario.unverified (dependencyError "Account" "Query")).
  vm_compute; reflexivity.
Defined.

(** C6 (as stated) fails: [Member] declares [{name: Account, of: Query}]
    and no entry loads [Account]'s [Query]; the error names [Account] and
    [Query] but not the dependent module [Member]. *)
Lemma C6_dependent_module_not_named :
  ∃ e, _verifyDependencies Scenario.unverified = inl e ∧
    message e = Some "Expected module Account command Query to be loaded." ∧
    names e "Account" = true ∧ names e "Query" = true ∧
    names e "Member" = false.
Proof.
  eexists. split; [vm_compute; reflexivity|].
  split_and!; vm_compute; reflexivity.
Qed.

(** ** C9: scalar and sequence forms of [of] *)

Lemma sequenceRef_name (module : ModuleRef) :
  _moduleName (sequenceRef module) = _moduleName module.
Proof. by destruct module. Qed.

Lemma sequence_getLoadedCommand (d : Deployment.t) (module : ModuleRef) :
  _getLoadedCommand (sequenceDeployment d) (sequenceRef module)
    = _getLoadedCommand d module.
Proof. by destruct module. Qed.

Lemma sequence_addLoaded d loaded module :
  addLoaded (sequenceDeployment d) loaded (sequenceRef module)
    = addLoaded d loaded module.
Proof.
  unfold addLoaded. by rewrite sequenceRef_name, sequence_getLoadedCommand.
Qed.

Lemma sequence_loadedCommands (ds : list Deployment.t) :
  loadedCommands (sequenceDeployment <$> ds) = loadedCommands ds.
Proof.
  unfold loadedCommands. generalize (∅ : gmap string (gset string)).
  induction ds as [|d ds IH]; intros loaded; simpl; [done|].
  rewrite IH. f_equal. clear IH. revert loaded.
  induction (Deployment.modules d) as [|m ms IHm]; intros loaded; simpl; [done|].
  by rewrite sequence_addLoaded, IHm.
Qed.

Lemma sequence_loadEvents `{Host} (paths : gmap string string)
    (runner : Runner.t) (d : Deployment.t) :
  omap eventPath (loadEvents paths runner (sequenceDeployment d))
    = omap eventPath (loadEvents paths runner d).
Proof.
  unfold loadEvents. simpl Deployment.modules.
  induction (Deployment.modules d) as [|module ms IH]; [done|].
  rewrite fmap_cons, !bind_cons, !omap_app, IH. f_equal.
  rewrite sequenceRef_name.
  replace (toLoad (sequenceDeployment d) (sequenceRef module))
    with (toLoad d module) by (by destruct module).
  induction (toLoad d module) as [|load ls IHl]; [done|].
  rewrite !bind_cons, !omap_app, IHl. done.
Qed.

(** C9: an [of] written as the scalar [q] and one written as the
    singleton sequence [[q]] give the same commands, for the entry's
    default and for a module's override, in aggregation
    ([_getLoadedCommand]) and in execution ([toLoad]); and rewriting every
    [of] of a manifest to its sequence form changes neither the commands
    of any module reference, nor the aggregated map, nor the artifacts
    the load hook is invoked on and their order. *)
Theorem C9_scalar_and_singleton_load_alike :
  (∀ q : string, toArray (scalar q) = toArray (array [q])) ∧
  (∀ ty n q desc ms tpl ld module,
     _getLoadedCommand (Deployment.mk ty n (scalar q) desc ms tpl ld) module
       = _getLoadedCommand (Deployment.mk ty n (array [q]) desc ms tpl ld)
           module ∧
     toLoad (Deployment.mk ty n (scalar q) desc ms tpl ld) module
       = toLoad (Deployment.mk ty n (array [q]) desc ms tpl ld) module) ∧
  (∀ d name q,
     _getLoadedCommand d (override (LoadModule.mk name (scalar q)))
       = _getLoadedCommand d (override (LoadModule.mk name (array [q]))) ∧
     toLoad d (override (LoadModule.mk name (scalar q)))
       = toLoad d (override (LoadModule.mk name (array [q])))) ∧
  (∀ q : string, sequence (scalar q) = array [q]) ∧
  (∀ d module,
     _getLoadedCommand (sequenceDeployment d) (sequenceRef module)
       = _getLoadedCommand d module ∧
     toLoad (sequenceDeployment d) (sequenceRef module) = toLoad d module) ∧
  (∀ ds, loadedCommands (sequenceDeployment <$> ds) = loadedCommands ds) ∧
  (∀ (H : Host) paths (runner : Runner.t) d,
     omap eventPath (loadEvents paths runner (sequenceDeployment d))
       = omap eventPath (loadEvents paths runner d)).
Proof.
  split_and!.
  - done.
  - intros. by destruct module.
  - done.
  - done.
  - intros. by destruct module.
  - apply sequence_loadedCommands.
  - intros. apply sequence_loadEvents.
Qed.

(** ** The executor *)

Section ExecutorProperties.
Context `{Host}.

Lemma bind_action {A B : Type} (m : Action A) (k : A → Action B) (σ : State) :
  (m ≫= k) σ =
    match m σ with
    | (inl e, σ') => (inl e, σ')
    | (inr a, σ') => k a σ'
    end.
Proof. reflexivity. Qed.

Lemma forDeployment_firstNamed (name : string) (ds : list Deployment.t) :
  forDeployment name ds =
    match firstNamed name ds with
    | Some d => execute d
    | None => mret tt
    end.
Proof.
  unfold firstNamed. induction ds as [|d ds IH]; simpl; [done|].
  rewrite filter_cons. destruct (decide (Deployment.name d = name)); [done|].
  exact IH.
Qed.

Lemma run_verification_fails name e σ :
  _verifyDependencies (this σ) = inl e →
  run name (Some true) σ = (inl (Assertion e), σ).
Proof.
  intros Hv. unfold run. rewrite bind_action. simpl.
  rewrite bind_action, Hv. reflexivity.
Qed.

Lemma run_proceeds name verify cfg σ :
  verification_passes verify (this σ) →
  config (this σ) = Some cfg →
  run name verify σ =
    forDeployment name (DeploymentConfig.deployment cfg)
      (mkState (clearConfigCache (this σ)) (world σ) (trace σ)).
Proof.
  intros Hpass Hcfg. unfold run. rewrite bind_action. simpl.
  rewrite bind_action.
  assert (match verify with
          | Some true =>
              match _verifyDependencies (this σ) with
              | inl e => throw (Assertion e)
              | inr _ => mret tt
              end
          | Some false | None => mret tt
          end σ = (inr tt, σ)) as ->.
  { destruct verify as [[|]|]; [|done..]. by rewrite Hpass. }
  rewrite Hcfg, bind_action. reflexivity.
Qed.

(** *** Frames of the loops *)

Lemma forA_this {A : Type} (body : A → Action unit) (xs : list A) :
  (∀ x σ, this (body x σ).2 = this σ) →
  ∀ σ, this (forA body xs σ).2 = this σ.
Proof.
  intros Hbody. induction xs as [|x xs IH]; intros σ; simpl; [done|].
  rewrite bind_action. specialize (Hbody x σ).
  destruct (body x σ) as [[e|[]] σ1]; simpl in *; [done|].
  by rewrite IH.
Qed.

Lemma host_this {A : Type} (f : World → (Exn + A) * World) σ :
  this (host f σ).2 = this σ.
Proof. unfold host. by destruct (f (world σ)) as [[e|a] w]. Qed.

Lemma call_this {A : Type} ev (f : World → (Exn + A) * World) σ :
  this (call ev f σ).2 = this σ.
Proof. unfold call. by rewrite host_this. Qed.

Lemma loadCommand_this runner d module load σ :
  this (loadCommand runner d module load σ).2 = this σ.
Proof.
  unfold loadCommand. rewrite bind_action. simpl.
  destruct (modulePathCache (this σ) !! _moduleName module) as [p|]; [|done].
  destruct (truthy p); [|done].
  rewrite bind_action.
  pose proof (host_this (require (artifactPath p load)) σ) as Hreq.
  destruct (host (require (artifactPath p load)) σ) as [[e|a] σ1];
    simpl in *; [done|].
  by rewrite call_this.
Qed.

Lemma loadModules_this runner d ms σ :
  this (forA (λ module,
                forA (loadCommand runner d module) (toLoad d module))
             ms σ).2 = this σ.
Proof.
  apply forA_this. intros module σ1.
  apply forA_this. intros load σ2. apply loadCommand_this.
Qed.

(** *** Traces of the loops that complete *)

Lemma forA_trace {A : Type} (body : A → Action unit) (ev : A → list Event)
    (th : Framo Runner.t) (xs : list A) :
  (∀ x σ σ', this σ = th → body x σ = (inr tt, σ') →
     this σ' = th ∧ trace σ' = trace σ ++ ev x) →
  ∀ σ σ', this σ = th → forA body xs σ = (inr tt, σ') →
    this σ' = th ∧ trace σ' = trace σ ++ (xs ≫= ev).
Proof.
  intros Hbody. induction xs as [|x xs IH]; intros σ σ' Hth; simpl.
  - intros [= <-]. by rewrite app_nil_r.
  - rewrite bind_action.
    destruct (body x σ) as [[e|[]] σ1] eqn:Hx; [discriminate|].
    destruct (Hbody x σ σ1 Hth Hx) as [Hth1 Htr1].
    intros Hrest. destruct (IH σ1 σ' Hth1 Hrest) as [Hth' Htr'].
    split; [done|]. by rewrite Htr', Htr1, <-app_assoc.
Qed.

Lemma loadCommand_trace runner d module load σ σ' :
  loadCommand runner d module load σ = (inr tt, σ') →
  this σ' = this σ ∧
  trace σ' = trace σ ++
    [OnLoad (Runner.type runner)
       (artifactPath
          (default "" (modulePathCache (this σ) !! _moduleName module)) load)
       d].
Proof.
  intros Hload. split.
  { by rewrite <-(loadCommand_this runner d module load σ), Hload. }
  revert Hload. unfold loadCommand. rewrite bind_action. simpl.
  destruct (modulePathCache (this σ) !! _moduleName module) as [p|];
    [|discriminate].
  destruct (truthy p); [|discriminate].
  rewrite bind_action. unfold call, host. simpl.
  destruct (require (artifactPath p load) (world σ)) as [[e|a] w];
    [discriminate|]. simpl.
  destruct (Runner.onLoad runner a d w) as [[e|[]] w']; [discriminate|].
  by intros [= <-].
Qed.

Lemma loadModules_trace runner d σ σ' :
  forA (λ module, forA (loadCommand runner d module) (toLoad d module))
       (Deployment.modules d) σ = (inr tt, σ') →
  this σ' = this σ ∧
  trace σ' = trace σ ++ loadEvents (modulePathCache (this σ)) runner d.
Proof.
  unfold loadEvents. apply forA_trace; [|done].
  intros module σ1 σ1' Hth1. apply forA_trace; [|done].
  intros load σ2 σ2' Hth2 Hload.
  apply loadCommand_trace in Hload as [Hth Htr].
  rewrite Hth2 in Hth, Htr. done.
Qed.

(** *** One matched entry *)

Lemma execute_outcome d σ r σ' :
  execute d σ = (r, σ') →
  match runnerCache (this σ) !! Deployment.type d with
  | None => r = inl (Assertion (mkAssertionError "runner" None)) ∧ σ' = σ
  | Some runner =>
      match r with
      | inl _ => this σ' = clearRunnerCache (this σ)
      | inr _ =>
          this σ' = clearModulePathCache (clearRunnerCache (this σ)) ∧
          trace σ' = trace σ
            ++ loadEvents (modulePathCache (this σ)) runner d
            ++ [Run (Runner.type runner)]
      end
  end.
Proof.
  unfold execute. rewrite bind_action. simpl.
  destruct (runnerCache (this σ) !! Deployment.type d) as [runner|];
    [|by intros [= <- <-]].
  rewrite bind_action. simpl. rewrite bind_action.
  set (σ1 := mkState (clearRunnerCache (this σ)) (world σ) (trace σ)).
  destruct (forA _ (Deployment.modules d) σ1) as [[e|[]] σ2] eqn:Hloop.
  - intros [= <- <-].
    pose proof (loadModules_this runner d (Deployment.modules d) σ1) as Hth.
    by rewrite Hloop in Hth.
  - apply loadModules_trace in Hloop as [Hth2 Htr2]. simpl in Hth2, Htr2.
    rewrite bind_action. unfold call, host. simpl.
    destruct (Runner.run runner (world σ2)) as [[e|[]] w]; simpl.
    + intros [= <- <-]. done.
    + intros [= <- <-]. simpl. rewrite Hth2, Htr2. by rewrite <-app_assoc.
Qed.

Lemma run_passed name verify σ σ' :
  run name verify σ = (inr tt, σ') → verification_passes verify (this σ).
Proof.
  intros Hrun ->.
  destruct (_verifyDependencies (this σ)) as [e|[]] eqn:Hv; [|done].
  by rewrite (run_verification_fails name e σ Hv) in Hrun.
Qed.

(** ** C7: the order of the hooks *)



(** ** C4: an unmatched name, an unregistered runner *)

(** C4 (as the code has it): once verification has passed or was not
    asked for, a name that matches no entry makes [run] complete without
    error and without invoking any hook, the declaration cache cleared;
    and a matched entry whose type has no registered runner makes it
    fail on the assertion of the runner, before any hook. *)
Theorem C4_unmatched_name_completes_unregistered_runner_fails
    verify σ cfg :
  config (this σ) = Some cfg →
  verification_passes verify (this σ) →
  (∀ name, firstNamed name (DeploymentConfig.deployment cfg) = None →
     run name verify σ
       = (inr tt, mkState (clearConfigCache (this σ)) (world σ) (trace σ))) ∧
  (∀ name d, firstNamed name (DeploymentConfig.deployment cfg) = Some d →
     runnerCache (this σ) !! Deployment.type d = None →
     run name verify σ
       = (inl (Assertion (mkAssertionError "runner" None)),
          mkState (clearConfigCache (this σ)) (world σ) (trace σ))).
Proof.
  intros Hcfg Hpass. split.
  - intros name Hnone.
    by rewrite (run_proceeds name verify cfg σ Hpass Hcfg),
      forDeployment_firstNamed, Hnone.
  - intros name d Hd Hrunner.
    rewrite (run_proceeds name verify cfg σ Hpass Hcfg),
      forDeployment_firstNamed, Hd.
    unfold execute. rewrite bind_action. simpl. by rewrite Hrunner.
Qed.

(** ** C3: what a run does to the three caches *)

(** C3 (as the code has it): a run that fails verification, or finds no
    manifest, leaves the instance as it was.  Otherwise the declaration
    cache is cleared as soon as verification has passed or was skipped;
    the runner registry is cleared as soon as the runner of the matched
    entry has been found; and the path cache stays as it was until the
    run hook has completed, and is cleared after it.  So a successful
    run on a matched entry ends with all three caches empty, a missing
    runner leaves the runner registry and the path cache as they were,
    and a failed load hook or run hook leaves only the path cache as it
    was. *)
Theorem C3_cache_frame name verify σ r σ' :
  run name verify σ = (r, σ') →
  (∀ e, verify = Some true → _verifyDependencies (this σ) = inl e →
     r = inl (Assertion e) ∧ σ' = σ) ∧
  (config (this σ) = None → σ' = σ) ∧
  (∀ cfg, config (this σ) = Some cfg →
     verification_passes verify (this σ) →
     configCache (this σ') = ∅ ∧
     match firstNamed name (DeploymentConfig.deployment cfg) with
     | None =>
         r = inr tt ∧
         runnerCache (this σ') = runnerCache (this σ) ∧
         modulePathCache (this σ') = modulePathCache (this σ)
     | Some d =>
         match runnerCache (this σ) !! Deployment.type d, r with
         | None, _ =>
             r = inl (Assertion (mkAssertionError "runner" None)) ∧
             runnerCache (this σ') = runnerCache (this σ) ∧
             modulePathCache (this σ') = modulePathCache (this σ)
         | Some _, inl _ =>
             runnerCache (this σ') = ∅ ∧
             modulePathCache (this σ') = modulePathCache (this σ)
         | Some _, inr _ =>
             runnerCache (this σ') = ∅ ∧ modulePathCache (this σ') = ∅
         end
     end).
Proof.
  intros Hrun. split_and!.
  - intros e -> Hv. rewrite (run_verification_fails name e σ Hv) in Hrun.
    by simplify_eq.
  - intros Hnone. revert Hrun. unfold run. rewrite bind_action. simpl.
    rewrite bind_action. unfold _verifyDependencies. rewrite Hnone.
    destruct verify as [[|]|]; simpl; by intros [= <- <-].
  - intros cfg Hcfg Hpass.
    rewrite (run_proceeds name verify cfg σ Hpass Hcfg) in Hrun.
    rewrite forDeployment_firstNamed in Hrun.
    destruct (firstNamed name (DeploymentConfig.deployment cfg)) as [d|].
    + apply execute_outcome in Hrun. simpl in Hrun.
      destruct (runnerCache (this σ) !! Deployment.type d) as [runner|].
      * destruct r as [e|[]].
        -- by rewrite Hrun.
        -- destruct Hrun as [-> _]. done.
      * destruct Hrun as [-> ->]. done.
    + unfold mret, Action_ret in Hrun. by simplify_eq.
Qed.

(** ** C5: the omitted [verify] *)

(** Leaving [verify] out is passing [false]. *)
Lemma run_verify_omitted name : run name None = run name (Some false).
Proof. reflexivity. Qed.

End ExecutorProperties.

(** ** The executor on the concrete scenarios *)


(** The trace of that run, written out. *)
Example run_entryQuery_trace :
  trace (run "BE" (Some true)
           (Scenario.start [Scenario.entryQuery] [Scenario.graphql])).2
    = [OnLoad "GraphQL" "modules/account/query" Scenario.entryQuery;
       OnLoad "GraphQL" "modules/member/mutation" Scenario.entryQuery;
       Run "GraphQL"].
Proof. vm_compute; reflexivity. Qed.

Lemma C4_unmatched_name_completes_unregistered_runner_fails_witness :
  config (this (Scenario.start [Scenario.entryQuery] []))
    = Some (DeploymentConfig.mk 1 None [Scenario.entryQuery]) ∧
  verification_passes (Some true)
    (this (Scenario.start [Scenario.entryQuery] [])) ∧
  firstNamed "Nope" [Scenario.entryQuery] = None ∧
  firstNamed "BE" [Scenario.entryQuery] = Some Scenario.entryQuery ∧
  runnerCache (this (Scenario.start [Scenario.entryQuery] []))
    !! Deployment.type Scenario.entryQuery = None ∧
  run "Nope" (Some true) (Scenario.start [Scenario.entryQuery] [])
    = (inr tt,
       mkState
         (clearConfigCache (this (Scenario.start [Scenario.entryQuery] [])))
         0 []) ∧
  run "BE" (Some true) (Scenario.start [Scenario.entryQuery] [])
    = (inl (Assertion (mkAssertionError "runner" None)),
       mkState
         (clearConfigCache (this (Scenario.start [Scenario.entryQuery] [])))
         0 []).
Proof.
  assert (verification_passes (Some true)
            (this (Scenario.start [Scenario.entryQuery] []))) as Hpass
    by (intros _; vm_compute; reflexivity).
  destruct (C4_unmatched_name_completes_unregistered_runner_fails
              (Some true) (Scenario.start [Scenario.entryQuery] [])
              (DeploymentConfig.mk 1 None [Scenario.entryQuery])
              eq_refl Hpass) as [Hunmatched Hunregistered].
  split_and!; [reflexivity | exact Hpass | vm_compute; reflexivity
              | vm_compute; reflexivity | vm_compute; reflexivity | |].
  - apply (Hunmatched "Nope"). vm_compute; reflexivity.
  - apply (Hunregistered "BE" Scenario.entryQuery); vm_compute; reflexivity.
Defined.

(** C4 (as stated) fails: a name that matches no entry raises nothing;
    the run completes, and no hook has been invoked. *)
Lemma C4_unmatched_name_raises_nothing :
  firstNamed "Nope" [Scenario.entryQuery] = None ∧
  (run "Nope" (Some true)
     (Scenario.start [Scenario.entryQuery] [Scenario.graphql])).1 = inr tt ∧
  trace (run "Nope" (Some true)
           (Scenario.start [Scenario.entryQuery] [Scenario.graphql])).2 = [].
Proof. split_and!; vm_compute; reflexivity. Qed.

Lemma C3_cache_frame_witness :
  run "BE" (Some true)
      (Scenario.start [Scenario.entryQuery] [Scenario.broken])
    = (inl (@Thrown Scenario.node "load failed"),
       (run "BE" (Some true)
          (Scenario.start [Scenario.entryQuery] [Scenario.broken])).2) ∧
  configCache
    (this (run "BE" (Some true)
             (Scenario.start [Scenario.entryQuery] [Scenario.broken])).2) = ∅ ∧
  runnerCache
    (this (run "BE" (Some true)
             (Scenario.start [Scenario.entryQuery] [Scenario.broken])).2) = ∅ ∧
  modulePathCache
    (this (run "BE" (Some true)
             (Scenario.start [Scenario.entryQuery] [Scenario.broken])).2)
    = Scenario.paths.
Proof.
  assert (run "BE" (Some true)
            (Scenario.start [Scenario.entryQuery] [Scenario.broken])
          = (inl (@Thrown Scenario.node "load failed"),
             (run "BE" (Some true)
                (Scenario.start [Scenario.entryQuery] [Scenario.broken])).2))
    as Hrun by (vm_compute; reflexivity).
  split; [exact Hrun|].
  destruct (C3_cache_frame _ _ _ _ _ Hrun) as (_ & _ & Hframe).
  destruct (Hframe (DeploymentConfig.mk 1 None [Scenario.entryQuery]) eq_refl)
    as [Hdecl Hrest]; [intros _; vm_compute; reflexivity|].
  split; [exact Hdecl|]. exact Hrest.
Defined.

(** C3 (as stated) fails: when the load hook throws, the declaration
    cache and the runner registry have already been cleared; only the
    path cache is as it was before the call. *)
Lemma C3_failed_load_hook_finds_caches_cleared :
  ∃ e σ',
    run "BE" (Some true)
        (Scenario.start [Scenario.entryQuery] [Scenario.broken])
      = (inl e, σ') ∧
    configCache (this (Scenario.start [Scenario.entryQuery] [Scenario.broken]))
      !! "Account" = Some Scenario.account ∧
    configCache (this σ') !! "Account" = None ∧
    is_Some
      (runnerCache
         (this (Scenario.start [Scenario.entryQuery] [Scenario.broken]))
         !! "GraphQL") ∧
    runnerCache (this σ') !! "GraphQL" = None ∧
    modulePathCache (this σ') = Scenario.paths.
Proof.
  eexists _, _. split; [vm_compute; reflexivity|].
  split_and!; [vm_compute; reflexivity | vm_compute; reflexivity
              | eexists; vm_compute; reflexivity | vm_compute; reflexivity
              | vm_compute; reflexivity].
Qed.

(** C5: the code at the failing input.  [Member] needs [Account]'s
    [Query], which no entry loads, so a verifying run fails before any
    hook; the same run with [verify] left out is not verified: it loads
    both modules, runs the runner and completes. *)
Theorem C5_omitted_verify_skips_verification :
  _verifyDependencies
    (this (Scenario.start [Scenario.entryMutation] [Scenario.graphql]))
    = inl (dependencyError "Account" "Query") ∧
  run "BE" (Some true)
      (Scenario.start [Scenario.entryMutation] [Scenario.graphql])
    = (inl (Assertion (dependencyError "Account" "Query")),
       Scenario.start [Scenario.entryMutation] [Scenario.graphql]) ∧
  (run "BE" None
     (Scenario.start [Scenario.entryMutation] [Scenario.graphql])).1 = inr tt ∧
  trace (run "BE" None
           (Scenario.start [Scenario.entryMutation] [Scenario.graphql])).2
    = [OnLoad "GraphQL" "modules/account/mutation" Scenario.entryMutation;
       OnLoad "GraphQL" "modules/member/mutation" Scenario.entryMutation;
       Run "GraphQL"].
Proof. split_and!; vm_compute; reflexivity. Qed.

(** A run hook that throws: both load hooks and the run hook were
    entered, the declaration cache and the runner registry are empty, and
    the path cache is as it was. *)
Example run_hook_failure :
  ∃ σ',
    run "BE" (Some true)
        (Scenario.start [Scenario.entryQuery] [Scenario.stalled])
      = (inl (@Thrown Scenario.node "run failed"), σ') ∧
    trace σ'
      = [OnLoad "GraphQL" "modules/account/query" Scenario.entryQuery;
         OnLoad "GraphQL" "modules/member/mutation" Scenario.entryQuery;
         Run "GraphQL"] ∧
    configCache (this σ') = ∅ ∧ runnerCache (this σ') = ∅ ∧
    modulePathCache (this σ') = Scenario.paths.
Proof. eexists. split_and!; vm_compute; reflexivity. Qed.

(** * Further properties of the code *)

(** ** The resolver: failures, idempotence, manifests without templates *)

Lemma mapE_total {E A B : Type} (f : A → E + B) (xs : list A) :
  (∀ x, x ∈ xs → ∃ y, f x = inr y) → ∃ ys, mapE f xs = inr ys.
Proof.
  induction xs as [|x xs IH]; intros Hall; simpl; [eauto|].
  destruct (Hall x) as [y ->]; [left|].
  destruct IH as [ys ->]; [intros z Hz; apply Hall; by right|].
  simpl. eauto.
Qed.

(** A map that throws throws what its callback threw at the first element
    on which it throws. *)
Lemma mapE_inl {E A B : Type} (f : A → E + B) (xs : list A) (e : E) :
  mapE f xs = inl e →
  ∃ before x after, xs = before ++ x :: after ∧
    (∀ y, y ∈ before → ∃ z, f y = inr z) ∧ f x = inl e.
Proof.
  induction xs as [|x xs IH]; simpl; [discriminate|].
  destruct (f x) as [e'|y] eqn:Hx; simpl.
  - intros [= <-]. exists [], x, xs. split_and!; [done| |done].
    intros z Hz; by apply elem_of_nil in Hz.
  - destruct (mapE f xs) as [e'|ys]; simpl; [|discriminate].
    intros [= <-]. destruct (IH eq_refl) as (before & z & after & -> & Hb & Hz).
    exists (x :: before), z, after. split_and!; [done| |done].
    intros w [->|Hw]%elem_of_cons; [eauto | by apply Hb].
Qed.

Lemma expand_inr_found (templates : option (gmap string Partial.t))
    (service entry : Partial.t) :
  expand templates service = inr entry →
  match Partial.template service with
  | Some t =>
      if truthy t then
        match templates with
        | Some ts =>
            bool_decide (is_Some (ts !! t)) || bool_decide (t ∈ objectPrototype)
        | None => false
        end
      else true
  | None => true
  end = true.
Proof.
  unfold expand, getTemplate.
  destruct (Partial.template service) as [t|]; [|done].
  destruct (truthy t); [|done].
  destruct templates as [ts|]; [|discriminate].
  destruct (ts !! t) as [tpl|] eqn:Htpl.
  - intros _. apply orb_true_iff. left. apply bool_decide_eq_true. eauto.
  - destruct (bool_decide (t ∈ objectPrototype)); [|discriminate].
    intros _. apply orb_true_r.
Qed.

Lemma expand_found (templates : option (gmap string Partial.t))
    (service : Partial.t) :
  match Partial.template service with
  | Some t =>
      if truthy t then
        match templates with
        | Some ts =>
            bool_decide (is_Some (ts !! t)) || bool_decide (t ∈ objectPrototype)
        | None => false
        end
      else true
  | None => true
  end = true →
  ∃ entry, expand templates service = inr entry.
Proof.
  unfold expand, getTemplate.
  destruct (Partial.template service) as [t|]; [|eauto].
  destruct (truthy t); [|eauto].
  destruct templates as [ts|]; [|discriminate].
  destruct (ts !! t) as [tpl|] eqn:Htpl; [eauto|].
  destruct (bool_decide (t ∈ objectPrototype)); [eauto|].
  intros Hfalse. apply orb_true_iff in Hfalse as [Hown|?]; [|done].
  by apply bool_decide_eq_true in Hown as [? [=]].
Qed.

(** Resolution returns a manifest exactly when every entry that refers to
    a template refers to a name [config.templates[template]] finds: a key
    of the template table, or a property name the table inherits as a
    plain object (such as [constructor] or [toString]). *)
Theorem loadConfig_succeeds_iff (config : DeploymentConfig.t Partial.t) :
  (∃ resolved, _loadConfig config = inr resolved) ↔
    templates_found config = true.
Proof.
  unfold _loadConfig, templates_found. split.
  - intros [resolved Hres]. apply bind_inr in Hres as (entries & Hmap & _).
    apply mapE_inr in Hmap. apply forallb_forall. intros service Hin.
    apply list_elem_of_In, list_elem_of_lookup_1 in Hin as [i Hi].
    destruct (Forall2_lookup_l _ _ _ _ _ Hmap Hi) as (entry & _ & Hentry).
    by eapply expand_inr_found.
  - intros Hdef.
    destruct (mapE_total (expand (DeploymentConfig.templates config))
                (DeploymentConfig.deployment config)) as [entries ->];
      [|simpl; eauto].
    intros service Hin. apply expand_found.
    apply (proj1 (forallb_forall _ _) Hdef). by apply list_elem_of_In.
Qed.

(** A template name found only on the prototype passes both assertions
    and leaves the entry as it is. *)
Example expand_inherited_name :
  expand (Some ∅)
    (Partial.mk (Some "Rest") (Some "Web") None None None (Some "constructor")
       None)
    = inr (Partial.mk (Some "Rest") (Some "Web") None None None
             (Some "constructor") None).
Proof. vm_compute; reflexivity. Qed.

Lemma expand_inl (templates : option (gmap string Partial.t))
    (service : Partial.t) (e : AssertionError) :
  expand templates service = inl e →
  ∃ t, Partial.template service = Some t ∧ truthy t = true ∧
    ((templates = None ∧
      message e
        = Some ("No template defined, but found a referencing template "
                +:+ t)) ∨
     (∃ ts, templates = Some ts ∧ ts !! t = None ∧ (t ∉ objectPrototype) ∧
        message e
          = Some ("Expected template " +:+ t
                  +:+ " to be defined on the templates."))) ∧
    names e t = true.
Proof.
  unfold expand, getTemplate.
  destruct (Partial.template service) as [t|]; [|discriminate].
  destruct (truthy t) eqn:Ht; [|discriminate].
  destruct templates as [ts|].
  - destruct (ts !! t) as [tpl|] eqn:Htpl; [discriminate|].
    destruct (bool_decide (t ∈ objectPrototype)) eqn:Hproto; [discriminate|].
    apply bool_decide_eq_false in Hproto.
    intros [= <-]. exists t. split_and!; [done..| |].
    + right. by exists ts.
    + unfold names; cbn [message]. apply includes_append_l, includes_here, prefix_append.
  - intros [= <-]. exists t. split_and!; [done..| |].
    + by left.
    + unfold names; cbn [message]. apply includes_append_l, includes_here.
      clear. induction t as [|a t IH]; simpl; [done|].
      by destruct (Ascii.ascii_dec a a).
Qed.

(** When resolution fails, it fails on the first entry whose template
    [config.templates[template]] does not find: either the manifest has no
    template table at all, or the name is neither a key of the table nor
    a property name the table inherits; the message names the template
    either way, and every entry before that one was expanded. *)
Theorem loadConfig_missing_template (config : DeploymentConfig.t Partial.t)
    (e : AssertionError) :
  _loadConfig config = inl e →
  ∃ before service after t,
    DeploymentConfig.deployment config = before ++ service :: after ∧
    (∀ s, s ∈ before →
       ∃ entry, expand (DeploymentConfig.templates config) s = inr entry) ∧
    Partial.template service = Some t ∧ truthy t = true ∧
    ((DeploymentConfig.templates config = None ∧
      message e
        = Some ("No template defined, but found a referencing template "
                +:+ t)) ∨
     (∃ ts, DeploymentConfig.templates config = Some ts ∧ ts !! t = None ∧
        (t ∉ objectPrototype) ∧
        message e
          = Some ("Expected template " +:+ t
                  +:+ " to be defined on the templates."))) ∧
    names e t = true.
Proof.
  unfold _loadConfig.
  destruct (mapE _ (DeploymentConfig.deployment config)) as [e'|entries] eqn:Hmap;
    simpl; [|discriminate].
  intros [= <-].
  apply mapE_inl in Hmap as (before & service & after & Heq & Hbefore & Hfail).
  apply expand_inl in Hfail as (t & Ht & Htruthy & Hcase & Hnames).
  exists before, service, after, t. done.
Qed.

Lemma loadConfig_missing_template_witness :
  _loadConfig Fixture.dangling
    = inl (mkAssertionError "config.templates[template]"
             (Some "Expected template Wallet to be defined on the templates.")) ∧
  ∃ before service after t,
    DeploymentConfig.deployment Fixture.dangling
      = before ++ service :: after ∧
    (∀ s, s ∈ before →
       ∃ entry,
         expand (DeploymentConfig.templates Fixture.dangling) s = inr entry) ∧
    Partial.template service = Some t ∧ truthy t = true ∧
    ((DeploymentConfig.templates Fixture.dangling = None ∧
      message
        (mkAssertionError "config.templates[template]"
           (Some "Expected template Wallet to be defined on the templates."))
        = Some ("No template defined, but found a referencing template "
                +:+ t)) ∨
     (∃ ts, DeploymentConfig.templates Fixture.dangling = Some ts ∧
        ts !! t = None ∧ (t ∉ objectPrototype) ∧
        message
          (mkAssertionError "config.templates[template]"
             (Some "Expected template Wallet to be defined on the templates."))
          = Some ("Expected template " +:+ t
                  +:+ " to be defined on the templates."))) ∧
    names
      (mkAssertionError "config.templates[template]"
         (Some "Expected template Wallet to be defined on the templates."))
      t = true.
Proof.
  split; [vm_compute; reflexivity|].
  apply (loadConfig_missing_template Fixture.dangling).
  vm_compute; reflexivity.
Defined.

Lemma spread_idempotent (a b : Partial.t) : spread (spread a b) b = spread a b.
Proof.
  destruct b as [[?|] [?|] [?|] [?|] [?|] [?|] [?|]]; reflexivity.
Qed.

Lemma expand_idempotent (templates : option (gmap string Partial.t))
    (service entry : Partial.t) :
  (∀ ts name tpl, templates = Some ts → ts !! name = Some tpl →
     Partial.template tpl = None) →
  expand templates service = inr entry →
  expand templates entry = inr entry.
Proof.
  intros Hflat. unfold expand at 1.
  destruct (Partial.template service) as [t|] eqn:Ht;
    [|intros [= <-]; unfold expand; by rewrite Ht].
  destruct (truthy t) eqn:Htruthy;
    [|intros [= <-]; unfold expand; by rewrite Ht, Htruthy].
  destruct templates as [ts|]; [|discriminate].
  destruct (getTemplate ts t) as [tpl| |] eqn:Hget; [| |discriminate].
  - intros [= <-]. unfold expand.
    assert (ts !! t = Some tpl) as Htpl.
    { unfold getTemplate in Hget. destruct (ts !! t); [by simplify_eq|].
      by destruct (bool_decide (t ∈ objectPrototype)). }
    assert (Partial.template (spread service tpl) = Some t) as ->.
    { simpl. by rewrite Ht, (Hflat ts t tpl eq_refl Htpl). }
    by rewrite Htruthy, Hget, spread_idempotent.
  - intros [= <-]. unfold expand. by rewrite Ht, Htruthy, Hget.
Qed.

(** Resolution is idempotent when no template sets a [template] of its
    own: resolving a resolved manifest returns it unchanged, although its
    entries still carry their [template] field. *)
Theorem loadConfig_idempotent (config resolved : DeploymentConfig.t Partial.t) :
  templates_flat config →
  _loadConfig config = inr resolved →
  _loadConfig resolved = inr resolved.
Proof.
  intros Hflat. unfold _loadConfig.
  destruct (mapE _ (DeploymentConfig.deployment config)) as [e|entries] eqn:Hmap;
    simpl; [discriminate|].
  intros [= <-]. simpl.
  assert (mapE (expand (DeploymentConfig.templates config)) entries
          = inr entries) as ->; [|done].
  apply mapE_inr. apply mapE_inr in Hmap.
  induction Hmap as [|service entry ds es Hentry _ IH]; constructor; [|done].
  eapply expand_idempotent; [|done]. intros ts name tpl. apply Hflat.
Qed.

Lemma loadConfig_idempotent_witness :
  templates_flat Scenario.manifestT ∧
  _loadConfig Scenario.manifestT
    = inr (DeploymentConfig.mk 1 (Some {["T" := Scenario.templateT]})
             [spread Scenario.entryB Scenario.templateT]) ∧
  _loadConfig
      (DeploymentConfig.mk 1 (Some {["T" := Scenario.templateT]})
         [spread Scenario.entryB Scenario.templateT])
    = inr (DeploymentConfig.mk 1 (Some {["T" := Scenario.templateT]})
             [spread Scenario.entryB Scenario.templateT]).
Proof.
  assert (templates_flat Scenario.manifestT) as Hflat.
  { intros ts name tpl [= <-] [_ <-]%lookup_singleton_Some. reflexivity. }
  split; [exact Hflat|]. split; [vm_compute; reflexivity|].
  apply (loadConfig_idempotent Scenario.manifestT); [exact Hflat|].
  vm_compute; reflexivity.
Defined.

(** The hypothesis is needed: a template that names another template
    leaves that name on the resolved entry, and resolving again looks it
    up. *)
Example loadConfig_nested_not_idempotent :
  ∃ resolved e,
    _loadConfig Fixture.nested = inr resolved ∧
    _loadConfig resolved = inl e ∧
    message e = Some "Expected template U to be defined on the templates.".
Proof. eexists _, _. split_and!; vm_compute; reflexivity. Qed.

(** A manifest none of whose entries refers to a template is returned as
    it is, with or without a template table. *)
Theorem loadConfig_template_free (config : DeploymentConfig.t Partial.t) :
  template_free config = true → _loadConfig config = inr config.
Proof.
  unfold template_free, _loadConfig.
  destruct config as [version templates deployment]; simpl. intros Hfree.
  assert (mapE (expand templates) deployment = inr deployment) as ->; [|done].
  induction deployment as [|service rest IH]; simpl; [done|].
  simpl in Hfree. apply andb_prop in Hfree as [Hservice Hrest].
  rewrite (IH Hrest).
  unfold expand. destruct (Partial.template service) as [t|]; [|done].
  by destruct (truthy t).
Qed.

Lemma loadConfig_template_free_witness :
  template_free (DeploymentConfig.mk 1 None [Scenario.templateT]) = true ∧
  _loadConfig (DeploymentConfig.mk 1 None [Scenario.templateT])
    = inr (DeploymentConfig.mk 1 None [Scenario.templateT]).
Proof.
  split; [vm_compute; reflexivity|].
  apply (loadConfig_template_free
           (DeploymentConfig.mk 1 None [Scenario.templateT])).
  vm_compute; reflexivity.
Defined.

(** ** The aggregator and the verifier over whole manifests *)

(** The map of pass one has a key exactly for the modules some entry
    lists, and the set under a key holds exactly the commands contributed
    for that module by the entries of the manifest: the commands of the
    entry's [of] for a bare reference, those of the override's own [of]
    for an override pair. *)
Theorem loadedCommands_exact (ds : list Deployment.t) (X : string) :
  (is_Some (loadedCommands ds !! X) ↔
     ∃ d module, d ∈ ds ∧ module ∈ Deployment.modules d ∧
       listedName module = X) ∧
  (∀ set, loadedCommands ds !! X = Some set →
     ∀ c, c ∈ set ↔
       ∃ d module, d ∈ ds ∧ module ∈ Deployment.modules d ∧
         listedName module = X ∧
         match module with
         | bare _ => c ∈ commands (Deployment.of_ d)
         | override m => c ∈ commands (LoadModule.of_ m)
         end).
Proof.
  split.
  { rewrite loadedCommands_is_Some.
    by setoid_rewrite _moduleName_listedName. }
  assert (∀ c,
            aggregated ds X c ↔
            ∃ d module, d ∈ ds ∧ module ∈ Deployment.modules d ∧
              listedName module = X ∧
              match module with
              | bare _ => c ∈ commands (Deployment.of_ d)
              | override m => c ∈ commands (LoadModule.of_ m)
              end) as Hrule.
  { intros c. unfold aggregated. split.
    - intros (d & module & ? & ? & ? & Hc). exists d, module.
      by destruct module.
    - intros (d & module & ? & ? & ? & Hc). exists d, module.
      by destruct module. }
  setoid_rewrite <-Hrule.
  intros set Hset c. rewrite <-loadedCommands_has, Hset. unfold has.
  by rewrite bool_decide_eq_true.
Qed.

(** What the executor loads for a module of an entry of the manifest is
    what the verifier has aggregated for it: every command of [toLoad] is
    in the set of that module. *)
Theorem toLoad_aggregated (ds : list Deployment.t) (i j k : nat)
    (d : Deployment.t) (module : ModuleRef) (load : string) :
  ds !! i = Some d →
  Deployment.modules d !! j = Some module →
  toLoad d module !! k = Some load →
  ∃ set, loadedCommands ds !! _moduleName module = Some set ∧ load ∈ set.
Proof.
  intros Hd Hm Hload. apply has_true, loadedCommands_has.
  exists d, module. split_and!; [by eapply list_elem_of_lookup_2..|done|].
  apply list_elem_of_lookup_2 in Hload. by destruct module.
Qed.

Lemma toLoad_aggregated_witness :
  [Scenario.entryQuery; Scenario.entryRest] !! 1 = Some Scenario.entryRest ∧
  Deployment.modules Scenario.entryRest !! 0 = Some (bare "Account") ∧
  toLoad Scenario.entryRest (bare "Account") !! 1 = Some "Query" ∧
  ∃ set,
    loadedCommands [Scenario.entryQuery; Scenario.entryRest]
      !! _moduleName (bare "Account") = Some set ∧
    "Query" ∈ set.
Proof.
  split_and!; [reflexivity..|].
  apply (toLoad_aggregated [Scenario.entryQuery; Scenario.entryRest] 1 0 1
           Scenario.entryRest (bare "Account") "Query"); reflexivity.
Defined.

Lemma aggregated_app ds1 ds2 X c :
  aggregated (ds1 ++ ds2) X c ↔ aggregated ds1 X c ∨ aggregated ds2 X c.
Proof.
  unfold aggregated. setoid_rewrite elem_of_app. naive_solver.
Qed.

(** Verified manifests compose: when two manifests pass verification
    against the same registry, so does the manifest that lists the
    entries of both. *)
Theorem verification_composes {R : Type} (this1 this2 this : Framo R)
    (cfg1 cfg2 cfg : DeploymentConfig.t Deployment.t) :
  config this1 = Some cfg1 → config this2 = Some cfg2 →
  config this = Some cfg →
  configCache this1 = configCache this →
  configCache this2 = configCache this →
  DeploymentConfig.deployment cfg
    = DeploymentConfig.deployment cfg1 ++ DeploymentConfig.deployment cfg2 →
  _verifyDependencies this1 = inr tt →
  _verifyDependencies this2 = inr tt →
  _verifyDependencies this = inr tt.
Proof.
  intros Hcfg1 Hcfg2 Hcfg Hcache1 Hcache2 Happ.
  rewrite !_verifyDependencies_inr.
  intros (? & ? & Hsize & Hall1) (? & ? & _ & Hall2). simplify_eq.
  exists cfg. split_and!; [done|by rewrite <-Hcache1|].
  intros d module Hd Hm. rewrite Happ in Hd.
  apply checkModule_inr.
  assert (∃ ds, checkModule (configCache this) (loadedCommands ds) module
                  = inr tt ∧
                ∀ X c, aggregated ds X c →
                  aggregated (DeploymentConfig.deployment cfg) X c)
    as (ds & Hcheck & Hmono).
  { apply elem_of_app in Hd as [Hd|Hd].
    - exists (DeploymentConfig.deployment cfg1). split.
      + rewrite <-Hcache1. by apply (Hall1 d).
      + intros X c Hagg. rewrite Happ. apply aggregated_app. by left.
    - exists (DeploymentConfig.deployment cfg2). split.
      + rewrite <-Hcache2. by apply (Hall2 d).
      + intros X c Hagg. rewrite Happ. apply aggregated_app. by right. }
  apply checkModule_inr in Hcheck as (declaration & Hdecl & Hdeps).
  exists declaration. split; [done|].
  intros deps dep c Hdeps' Hdep Hc.
  apply (proj2 (loadedCommands_has _ _ _)), Hmono.
  apply (proj1 (loadedCommands_has _ _ _)). by eapply Hdeps.
Qed.

Lemma verification_composes_witness :
  _verifyDependencies Scenario.verified = inr tt ∧
  _verifyDependencies
    (mkFramo (Scenario.manifest [Scenario.entryRest]) Scenario.registry
       (∅ : gmap string unit) Scenario.paths) = inr tt ∧
  _verifyDependencies
    (mkFramo (Scenario.manifest [Scenario.entryQuery; Scenario.entryRest])
       Scenario.registry (∅ : gmap string unit) Scenario.paths) = inr tt.
Proof.
  split; [vm_compute; reflexivity|]. split; [vm_compute; reflexivity|].
  apply (verification_composes Scenario.verified
           (mkFramo (Scenario.manifest [Scenario.entryRest]) Scenario.registry
              (∅ : gmap string unit) Scenario.paths)
           (mkFramo
              (Scenario.manifest [Scenario.entryQuery; Scenario.entryRest])
              Scenario.registry (∅ : gmap string unit) Scenario.paths)
           (DeploymentConfig.mk 1 None [Scenario.entryQuery])
           (DeploymentConfig.mk 1 None [Scenario.entryRest])
           (DeploymentConfig.mk 1 None
              [Scenario.entryQuery; Scenario.entryRest]));
    try reflexivity; vm_compute; reflexivity.
Defined.

(** The other direction fails: a manifest can pass as a whole while one
    of its parts does not, because a dependency of one entry is satisfied
    by a command only another entry loads. *)
Example verification_not_separable :
  _verifyDependencies
    (mkFramo (Scenario.manifest [Scenario.entryMutation; Scenario.entryRest])
       Scenario.registry (∅ : gmap string unit) Scenario.paths) = inr tt ∧
  _verifyDependencies Scenario.unverified
    = inl (dependencyError "Account" "Query").
Proof. split; vm_compute; reflexivity. Qed.

(** ** The executor: every run, not only the ones that complete *)

Section ExecutorFailures.
Context `{Host}.

Lemma verification_cases (verify : option bool) (this : Framo Runner.t) :
  (∃ e, verify = Some true ∧ _verifyDependencies this = inl e) ∨
  verification_passes verify this.
Proof.
  unfold verification_passes.
  destruct verify as [[|]|]; [|by right..].
  destruct (_verifyDependencies this) as [e|[]] eqn:Hv; [left; eauto|].
  by right.
Qed.

Lemma run_no_config name verify σ :
  config (this σ) = None → ∃ e, run name verify σ = (inl e, σ).
Proof.
  intros Hnone. unfold run. rewrite bind_action. simpl. rewrite bind_action.
  unfold _verifyDependencies. rewrite Hnone.
  destruct verify as [[|]|]; simpl; eauto.
Qed.

(** Past verification a run never touches the manifest, and it leaves
    the declaration cache empty. *)
Lemma run_past_verification name verify σ r σ' cfg :
  run name verify σ = (r, σ') →
  config (this σ) = Some cfg →
  verification_passes verify (this σ) →
  config (this σ') = Some cfg ∧ configCache (this σ') = ∅.
Proof.
  intros Hrun Hcfg Hpass.
  rewrite (run_proceeds name verify cfg σ Hpass Hcfg) in Hrun.
  rewrite forDeployment_firstNamed in Hrun.
  destruct (firstNamed name (DeploymentConfig.deployment cfg)) as [d|].
  - apply execute_outcome in Hrun. simpl in Hrun.
    destruct (runnerCache (this σ) !! Deployment.type d) as [runner|].
    + destruct r as [e|[]]; [|destruct Hrun as [Hrun _]]; by rewrite Hrun.
    + by destruct Hrun as [_ ->].
  - unfold mret, Action_ret in Hrun. by simplify_eq.
Qed.

(** *** Traces of loops that may fail *)

Lemma forA_prefix {A : Type} (body : A → Action unit) (ev : A → list Event)
    (th : Framo Runner.t) (xs : list A) :
  (∀ x σ r σ', this σ = th → body x σ = (r, σ') →
     this σ' = th ∧
     ∃ evs, trace σ' = trace σ ++ evs ∧
       match r with
       | inr _ => evs = ev x
       | inl _ => evs `prefix_of` ev x
       end) →
  ∀ σ r σ', this σ = th → forA body xs σ = (r, σ') →
    this σ' = th ∧
    ∃ evs, trace σ' = trace σ ++ evs ∧
      match r with
      | inr _ => evs = xs ≫= ev
      | inl _ => evs `prefix_of` (xs ≫= ev)
      end.
Proof.
  intros Hbody. induction xs as [|x xs IH]; intros σ r σ' Hth; simpl.
  - intros [= <- <-]. split; [done|]. exists []. by rewrite app_nil_r.
  - rewrite bind_action.
    destruct (body x σ) as [[e|[]] σ1] eqn:Hx.
    + intros [= <- <-].
      destruct (Hbody x σ _ σ1 Hth Hx) as (Hth1 & evs & Htr & Hpre).
      split; [done|]. exists evs. split; [done|]. by apply prefix_app_r.
    + destruct (Hbody x σ _ σ1 Hth Hx) as (Hth1 & evs & Htr & ->).
      intros Hrest.
      destruct (IH σ1 r σ' Hth1 Hrest) as (Hth' & evs' & Htr' & Hpre).
      split; [done|]. exists (ev x ++ evs').
      split; [by rewrite Htr', Htr, <-app_assoc|].
      destruct r as [e|[]]; [by apply prefix_app | by rewrite Hpre].
Qed.

Lemma loadCommand_prefix runner d module load σ r σ' :
  loadCommand runner d module load σ = (r, σ') →
  this σ' = this σ ∧
  ∃ evs, trace σ' = trace σ ++ evs ∧
    match r with
    | inr _ =>
        evs = [OnLoad (Runner.type runner)
                 (artifactPath
                    (default "" (modulePathCache (this σ)
                                   !! _moduleName module)) load) d]
    | inl _ =>
        evs `prefix_of`
          [OnLoad (Runner.type runner)
             (artifactPath
                (default "" (modulePathCache (this σ)
                               !! _moduleName module)) load) d]
    end.
Proof.
  intros Hload. split.
  { pose proof (loadCommand_this runner d module load σ) as Hth.
    by rewrite Hload in Hth. }
  revert Hload. unfold loadCommand. rewrite bind_action. simpl.
  destruct (modulePathCache (this σ) !! _moduleName module) as [p|];
    [|intros [= <- <-]; exists []; split;
      [by rewrite app_nil_r | apply prefix_nil]].
  destruct (truthy p);
    [|intros [= <- <-]; exists []; split;
      [by rewrite app_nil_r | apply prefix_nil]].
  rewrite bind_action. unfold call, host. simpl.
  destruct (require (artifactPath p load) (world σ)) as [[e|a] w]; simpl.
  - intros [= <- <-]. exists []. split; [by rewrite app_nil_r | apply prefix_nil].
  - destruct (Runner.onLoad runner a d w) as [[e|[]] w']; intros [= <- <-];
      eexists; split; done.
Qed.

Lemma loadModules_prefix runner d σ r σ' :
  forA (λ module, forA (loadCommand runner d module) (toLoad d module))
       (Deployment.modules d) σ = (r, σ') →
  this σ' = this σ ∧
  ∃ evs, trace σ' = trace σ ++ evs ∧
    match r with
    | inr _ => evs = loadEvents (modulePathCache (this σ)) runner d
    | inl _ => evs `prefix_of` loadEvents (modulePathCache (this σ)) runner d
    end.
Proof.
  unfold loadEvents. apply forA_prefix; [|done].
  intros module σ1 r1 σ1' Hth1. apply forA_prefix; [|done].
  intros load σ2 r2 σ2' Hth2 Hload.
  apply loadCommand_prefix in Hload as (Hth & evs & Htr & Hevs).
  rewrite Hth2 in Hth, Hevs. eauto.
Qed.

Lemma execute_prefix d runner σ r σ' :
  runnerCache (this σ) !! Deployment.type d = Some runner →
  execute d σ = (r, σ') →
  ∃ evs, trace σ' = trace σ ++ evs ∧
    (evs `prefix_of` loadEvents (modulePathCache (this σ)) runner d ∨
     evs = loadEvents (modulePathCache (this σ)) runner d
             ++ [Run (Runner.type runner)]).
Proof.
  intros Hrunner. unfold execute. rewrite bind_action. simpl.
  rewrite Hrunner, bind_action. simpl. rewrite bind_action.
  set (σ1 := mkState (clearRunnerCache (this σ)) (world σ) (trace σ)).
  destruct (forA _ (Deployment.modules d) σ1) as [[e|[]] σ2] eqn:Hloop;
    apply loadModules_prefix in Hloop as (Hth & evs & Htr & Hevs);
    simpl in Htr, Hevs.
  - intros [= <- <-]. exists evs. split; [done | by left].
  - subst evs. rewrite bind_action. unfold call, host. simpl.
    destruct (Runner.run runner (world σ2)) as [[e|[]] w]; simpl;
      intros [= <- <-]; simpl; eexists; (split; [by rewrite Htr, <-app_assoc|]);
      by right.
Qed.

Lemma run_trace_cases name verify σ r σ' :
  run name verify σ = (r, σ') →
  trace σ' = trace σ ∨
  ∃ cfg d runner evs,
    config (this σ) = Some cfg ∧
    firstNamed name (DeploymentConfig.deployment cfg) = Some d ∧
    runnerCache (this σ) !! Deployment.type d = Some runner ∧
    trace σ' = trace σ ++ evs ∧
    (evs `prefix_of` loadEvents (modulePathCache (this σ)) runner d ∨
     evs = loadEvents (modulePathCache (this σ)) runner d
             ++ [Run (Runner.type runner)]).
Proof.
  intros Hrun.
  destruct (verification_cases verify (this σ)) as [(e & -> & Hv)|Hpass].
  { rewrite (run_verification_fails name e σ Hv) in Hrun. left. by simplify_eq. }
  destruct (config (this σ)) as [cfg|] eqn:Hcfg.
  2: { destruct (run_no_config name verify σ Hcfg) as [e He].
       rewrite He in Hrun. left. by simplify_eq. }
  rewrite (run_proceeds name verify cfg σ Hpass Hcfg) in Hrun.
  rewrite forDeployment_firstNamed in Hrun.
  destruct (firstNamed name (DeploymentConfig.deployment cfg)) as [d|] eqn:Hd.
  2: { unfold mret, Action_ret in Hrun. left. by simplify_eq. }
  destruct (runnerCache (this σ) !! Deployment.type d) as [runner|] eqn:Hrunner.
  - right. exists cfg, d, runner.
    apply (execute_prefix d runner) in Hrun as (evs & Htr & Hevs); [|done].
    exists evs. done.
  - apply execute_outcome in Hrun. simpl in Hrun. rewrite Hrunner in Hrun.
    destruct Hrun as [_ ->]. by left.
Qed.

(** *** What a run that completes needed *)

Lemma forA_inr_Forall {A : Type} (body : A → Action unit) (P : A → Prop)
    (th : Framo Runner.t) (xs : list A) :
  (∀ x σ σ', this σ = th → body x σ = (inr tt, σ') → this σ' = th ∧ P x) →
  ∀ σ σ', this σ = th → forA body xs σ = (inr tt, σ') →
    this σ' = th ∧ Forall P xs.
Proof.
  intros Hbody. induction xs as [|x xs IH]; intros σ σ' Hth; simpl.
  - by intros [= <-].
  - rewrite bind_action.
    destruct (body x σ) as [[e|[]] σ1] eqn:Hx; [discriminate|].
    destruct (Hbody x σ σ1 Hth Hx) as [Hth1 HP]. intros Hrest.
    destruct (IH σ1 σ' Hth1 Hrest) as [Hth' Hall]. by split; [|constructor].
Qed.

Lemma loadCommand_inr_path runner d module load σ σ' :
  loadCommand runner d module load σ = (inr tt, σ') →
  ∃ p, modulePathCache (this σ) !! _moduleName module = Some p ∧
    truthy p = true.
Proof.
  unfold loadCommand. rewrite bind_action. simpl.
  destruct (modulePathCache (this σ) !! _moduleName module) as [p|];
    [|discriminate].
  destruct (truthy p) eqn:Hp; [eauto | discriminate].
Qed.

(** A run completes on its matched entry only if every module of the
    entry that has a command to load has a non-empty path in the path
    cache: a module that was never scanned makes the run fail. *)
Theorem run_needs_module_paths name verify σ σ' cfg d :
  config (this σ) = Some cfg →
  firstNamed name (DeploymentConfig.deployment cfg) = Some d →
  run name verify σ = (inr tt, σ') →
  ∀ module, module ∈ Deployment.modules d → toLoad d module ≠ [] →
    ∃ p, modulePathCache (this σ) !! _moduleName module = Some p ∧
      truthy p = true.
Proof.
  intros Hcfg Hd Hrun. pose proof (run_passed _ _ _ _ Hrun) as Hpass.
  rewrite (run_proceeds name verify cfg σ Hpass Hcfg) in Hrun.
  rewrite forDeployment_firstNamed, Hd in Hrun.
  revert Hrun. unfold execute. rewrite bind_action. simpl.
  destruct (runnerCache (this σ) !! Deployment.type d) as [runner|];
    [|discriminate].
  rewrite bind_action. simpl. rewrite bind_action.
  set (σ1 := mkState (clearRunnerCache (clearConfigCache (this σ)))
               (world σ) (trace σ)).
  destruct (forA _ (Deployment.modules d) σ1) as [[e|[]] σ2] eqn:Hloop;
    [discriminate|].
  intros _.
  apply (forA_inr_Forall _
           (λ module, toLoad d module ≠ [] →
              ∃ p, modulePathCache (this σ) !! _moduleName module = Some p ∧
                truthy p = true) (this σ1)) in Hloop as [_ Hall]; [|clear Hloop|done].
  - intros module Hm. by apply (proj1 (Forall_forall _ _) Hall).
  - intros module σa σb Hth Hinner.
    apply (forA_inr_Forall _
             (λ _, ∃ p, modulePathCache (this σ) !! _moduleName module = Some p ∧
                     truthy p = true) (this σ1)) in Hinner as [Hthb Hloads];
      [| |done].
    + split; [done|]. intros Hne.
      destruct (toLoad d module) as [|load ls]; [done|].
      by inversion Hloads.
    + intros load σc σd Hthc Hload. split.
      * pose proof (loadCommand_this runner d module load σc) as Hsame.
        rewrite Hload in Hsame. simpl in Hsame. congruence.
      * apply loadCommand_inr_path in Hload. by rewrite Hthc in Hload.
Qed.

(** *** One instance, one run *)

(** Once a run has got past verification, the declaration cache stays
    empty: every later verifying run on the instance fails on the registry
    guard, whatever the name, and changes nothing. *)
Theorem rerun_fails_verification name verify σ r σ' cfg :
  config (this σ) = Some cfg →
  verification_passes verify (this σ) →
  run name verify σ = (r, σ') →
  ∀ name', run name' (Some true) σ' = (inl (Assertion emptyCacheError), σ').
Proof.
  intros Hcfg Hpass Hrun name'.
  destruct (run_past_verification _ _ _ _ _ _ Hrun Hcfg Hpass) as [Hcfg' Hempty].
  apply run_verification_fails. unfold _verifyDependencies.
  by rewrite Hcfg', Hempty.
Qed.

(** After a run that completed on a matched entry the runner registry is
    empty: a later run that skips verification fails on the runner
    assertion for every name the manifest matches, before any hook, and
    completes silently for the names it does not match. *)
Theorem rerun_finds_no_runner name verify σ σ' cfg d :
  config (this σ) = Some cfg →
  firstNamed name (DeploymentConfig.deployment cfg) = Some d →
  run name verify σ = (inr tt, σ') →
  ∀ name' verify', verify' ≠ Some true →
    run name' verify' σ' =
      (match firstNamed name' (DeploymentConfig.deployment cfg) with
       | Some _ => inl (Assertion (mkAssertionError "runner" None))
       | None => inr tt
       end, σ').
Proof.
  intros Hcfg Hd Hrun name' verify' Hverify'.
  pose proof (run_passed _ _ _ _ Hrun) as Hpass.
  destruct (run_past_verification _ _ _ _ _ _ Hrun Hcfg Hpass) as [Hcfg' Hempty].
  rewrite (run_proceeds name verify cfg σ Hpass Hcfg) in Hrun.
  rewrite forDeployment_firstNamed, Hd in Hrun.
  apply execute_outcome in Hrun. simpl in Hrun.
  destruct (runnerCache (this σ) !! Deployment.type d) as [runner|];
    [|by destruct Hrun].
  destruct Hrun as [Hth _].
  rewrite (run_proceeds name' verify' cfg σ'); [|by intros ?|done].
  rewrite forDeployment_firstNamed.
  assert (mkState (clearConfigCache (this σ')) (world σ') (trace σ') = σ')
    as ->.
  { destruct σ' as [th w tr]. simpl in *. by subst th. }
  destruct (firstNamed name' (DeploymentConfig.deployment cfg)) as [d'|];
    [|done].
  unfold execute. rewrite bind_action. simpl. by rewrite Hth.
Qed.

(** Entries are tried in manifest order and the first of the requested
    name is the one executed: entries after it, of that name or not, play
    no part. *)
Theorem run_first_match name verify σ cfg before d after :
  config (this σ) = Some cfg →
  DeploymentConfig.deployment cfg = before ++ d :: after →
  Forall (λ d', Deployment.name d' ≠ name) before →
  Deployment.name d = name →
  verification_passes verify (this σ) →
  run name verify σ
    = execute d (mkState (clearConfigCache (this σ)) (world σ) (trace σ)).
Proof.
  intros Hcfg Hds Hbefore Hname Hpass.
  rewrite (run_proceeds name verify cfg σ Hpass Hcfg), Hds.
  clear Hds. induction Hbefore as [|d' before Hd' _ IH]; simpl.
  - by rewrite decide_True.
  - by rewrite decide_False.
Qed.

(** *** Verification is about the whole manifest *)

(** A verifying run fails, and touches neither the instance nor the
    world, as soon as any entry of the manifest lists a module without
    declaration, whether or not it is the entry asked for. *)
Theorem run_rejects_undeclared_module name σ cfg i j d module :
  config (this σ) = Some cfg →
  DeploymentConfig.deployment cfg !! i = Some d →
  Deployment.modules d !! j = Some module →
  configCache (this σ) !! _moduleName module = None →
  ∃ e, run name (Some true) σ = (inl (Assertion e), σ).
Proof.
  intros Hcfg Hd Hm Hnone.
  destruct (_verifyDependencies (this σ)) as [e|[]] eqn:Hv.
  - exists e. by apply run_verification_fails.
  - apply _verifyDependencies_inr in Hv as (cfg' & Hcfg' & _ & Hall).
    simplify_eq.
    destruct (proj1 (checkModule_inr _ _ _)
                (Hall d module (list_elem_of_lookup_2 _ _ _ Hd)
                   (list_elem_of_lookup_2 _ _ _ Hm)))
      as (declaration & Hdecl & _).
    congruence.
Qed.

(** *** Registering runners *)

Lemma addRunners_snoc runners runner (this : Framo Runner.t) :
  addRunners (runners ++ [runner]) this
    = addRunner runner (addRunners runners this).
Proof. unfold addRunners. by rewrite foldl_app. Qed.

(** A chain of [addRunner] calls registers, under every type, the runner
    of that type added last, keeps what was registered under the types
    the chain does not mention, and leaves the manifest and the other two
    caches alone. *)
Theorem addRunners_last_wins runners (this : Framo Runner.t) k :
  runnerCache (addRunners runners this) !! k
    = match last (filter (λ runner, Runner.type runner = k) runners) with
      | Some runner => Some runner
      | None => runnerCache this !! k
      end ∧
  config (addRunners runners this) = config this ∧
  configCache (addRunners runners this) = configCache this ∧
  modulePathCache (addRunners runners this) = modulePathCache this.
Proof.
  induction runners as [|runner runners IH] using rev_ind; [done|].
  rewrite addRunners_snoc, filter_app. destruct IH as (IH & ? & ? & ?).
  split; [|done]. simpl.
  rewrite filter_cons, filter_nil.
  destruct (decide (Runner.type runner = k)) as [<-|Hne].
  - by rewrite lookup_insert_eq, last_snoc.
  - by rewrite lookup_insert_ne, app_nil_r.
Qed.

(** The registry stays keyed by type: when every runner sits under its
    own type, it still does after any chain of [addRunner] calls; an
    empty registry is keyed. *)
Theorem addRunners_keyed runners (this : Framo Runner.t) :
  keyed this → keyed (addRunners runners this).
Proof.
  intros Hkeyed. induction runners as [|runner runners IH] using rev_ind;
    [done|].
  rewrite addRunners_snoc. intros k r. simpl.
  destruct (decide (Runner.type runner = k)) as [<-|Hne].
  - rewrite lookup_insert_eq. by intros [= <-].
  - rewrite lookup_insert_ne by done. apply IH.
Qed.

Lemma loadEvents_runner paths (runner : Runner.t) d ev :
  ev ∈ loadEvents paths runner d → eventRunner ev = Runner.type runner.
Proof.
  unfold loadEvents.
  intros (module & (load & ->%list_elem_of_singleton & _)%list_elem_of_bind
            & _)%list_elem_of_bind.
  done.
Qed.

(** On an instance whose registry is keyed by type, every hook a run
    enters belongs to a runner of the type of the matched entry. *)
Theorem run_dispatches_by_type name verify σ r σ' cfg d :
  keyed (this σ) →
  config (this σ) = Some cfg →
  firstNamed name (DeploymentConfig.deployment cfg) = Some d →
  run name verify σ = (r, σ') →
  ∃ evs, trace σ' = trace σ ++ evs ∧
    ∀ ev, ev ∈ evs → eventRunner ev = Deployment.type d.
Proof.
  intros Hkeyed Hcfg Hd Hrun.
  destruct (run_trace_cases _ _ _ _ _ Hrun)
    as [Hsame|(cfg' & d' & runner & evs & Hcfg' & Hd' & Hrunner & Htr & Hevs)].
  { exists []. split; [by rewrite app_nil_r|]. by intros ev ?%elem_of_nil. }
  simplify_eq. exists evs. split; [done|]. intros ev Hev.
  rewrite <-(Hkeyed _ _ Hrunner).
  destruct Hevs as [[rest Hpre]| ->].
  - apply (loadEvents_runner (modulePathCache (this σ)) runner d).
    rewrite Hpre. apply elem_of_app. by left.
  - apply elem_of_app in Hev as [Hev| ->%list_elem_of_singleton]; [|done].
    by apply (loadEvents_runner (modulePathCache (this σ)) runner d).
Qed.

End ExecutorFailures.

(** *** The executor's further properties on concrete runs *)

Lemma run_needs_module_paths_witness :
  config (this (Scenario.start [Scenario.entryQuery] [Scenario.graphql]))
    = Some (DeploymentConfig.mk 1 None [Scenario.entryQuery]) ∧
  firstNamed "BE" [Scenario.entryQuery] = Some Scenario.entryQuery ∧
  run "BE" (Some true)
      (Scenario.start [Scenario.entryQuery] [Scenario.graphql])
    = (inr tt,
       (run "BE" (Some true)
          (Scenario.start [Scenario.entryQuery] [Scenario.graphql])).2) ∧
  ∀ module, module ∈ Deployment.modules Scenario.entryQuery →
    toLoad Scenario.entryQuery module ≠ [] →
    ∃ p,
      modulePathCache
        (this (Scenario.start [Scenario.entryQuery] [Scenario.graphql]))
        !! _moduleName module = Some p ∧
      truthy p = true.
Proof.
  split_and!; [reflexivity | vm_compute; reflexivity | vm_compute; reflexivity |].
  apply (run_needs_module_paths "BE" (Some true)
           (Scenario.start [Scenario.entryQuery] [Scenario.graphql])
           (run "BE" (Some true)
              (Scenario.start [Scenario.entryQuery] [Scenario.graphql])).2
           (DeploymentConfig.mk 1 None [Scenario.entryQuery]));
    [reflexivity | vm_compute; reflexivity | vm_compute; reflexivity].
Defined.

(** A module that is declared nowhere on disk: with verification skipped
    the run loads [Account], then fails on the path of [Ghost]; the run
    hook is not entered. *)
Example run_unscanned_module :
  ∃ σ',
    run "BE" None (Scenario.start [Fixture.entryGhost] [Scenario.graphql])
      = (inl (Assertion (mkAssertionError "modulePath" None)), σ') ∧
    trace σ' = [OnLoad "GraphQL" "modules/account/query" Fixture.entryGhost].
Proof. eexists. split; vm_compute; reflexivity. Qed.

Lemma rerun_fails_verification_witness :
  config (this (Scenario.start [Scenario.entryQuery] [Scenario.graphql]))
    = Some (DeploymentConfig.mk 1 None [Scenario.entryQuery]) ∧
  verification_passes (Some true)
    (this (Scenario.start [Scenario.entryQuery] [Scenario.graphql])) ∧
  ∀ name',
    run name' (Some true)
        (run "BE" (Some true)
           (Scenario.start [Scenario.entryQuery] [Scenario.graphql])).2
      = (inl (Assertion emptyCacheError),
         (run "BE" (Some true)
            (Scenario.start [Scenario.entryQuery] [Scenario.graphql])).2).
Proof.
  assert (verification_passes (Some true)
            (this (Scenario.start [Scenario.entryQuery] [Scenario.graphql])))
    as Hpass by (intros _; vm_compute; reflexivity).
  split_and!; [reflexivity | exact Hpass |].
  apply (rerun_fails_verification "BE" (Some true)
           (Scenario.start [Scenario.entryQuery] [Scenario.graphql])
           (run "BE" (Some true)
              (Scenario.start [Scenario.entryQuery] [Scenario.graphql])).1
           (run "BE" (Some true)
              (Scenario.start [Scenario.entryQuery] [Scenario.graphql])).2
           (DeploymentConfig.mk 1 None [Scenario.entryQuery]));
    [reflexivity | exact Hpass | vm_compute; reflexivity].
Defined.

Lemma rerun_finds_no_runner_witness :
  config (this (Scenario.start [Scenario.entryQuery] [Scenario.graphql]))
    = Some (DeploymentConfig.mk 1 None [Scenario.entryQuery]) ∧
  firstNamed "BE" [Scenario.entryQuery] = Some Scenario.entryQuery ∧
  run "BE" (Some true)
      (Scenario.start [Scenario.entryQuery] [Scenario.graphql])
    = (inr tt,
       (run "BE" (Some true)
          (Scenario.start [Scenario.entryQuery] [Scenario.graphql])).2) ∧
  ∀ name' verify', verify' ≠ Some true →
    run name' verify'
        (run "BE" (Some true)
           (Scenario.start [Scenario.entryQuery] [Scenario.graphql])).2
      = (match firstNamed name'
                 (DeploymentConfig.deployment
                    (DeploymentConfig.mk 1 None [Scenario.entryQuery])) with
         | Some _ => inl (Assertion (mkAssertionError "runner" None))
         | None => inr tt
         end,
         (run "BE" (Some true)
            (Scenario.start [Scenario.entryQuery] [Scenario.graphql])).2).
Proof.
  split_and!; [reflexivity | vm_compute; reflexivity | vm_compute; reflexivity |].
  apply (rerun_finds_no_runner "BE" (Some true)
           (Scenario.start [Scenario.entryQuery] [Scenario.graphql])
           (run "BE" (Some true)
              (Scenario.start [Scenario.entryQuery] [Scenario.graphql])).2
           (DeploymentConfig.mk 1 None [Scenario.entryQuery])
           Scenario.entryQuery);
    [reflexivity | vm_compute; reflexivity | vm_compute; reflexivity].
Defined.

Lemma run_first_match_witness :
  Forall (λ d', Deployment.name d' ≠ "BE") [Scenario.entryRest] ∧
  Deployment.name Scenario.entryQuery = "BE" ∧
  verification_passes None
    (this (Scenario.start
             [Scenario.entryRest; Scenario.entryQuery; Scenario.entryMutation]
             [Scenario.graphql])) ∧
  run "BE" None
      (Scenario.start
         [Scenario.entryRest; Scenario.entryQuery; Scenario.entryMutation]
         [Scenario.graphql])
    = execute Scenario.entryQuery
        (mkState
           (clearConfigCache
              (this (Scenario.start
                       [Scenario.entryRest; Scenario.entryQuery;
                        Scenario.entryMutation]
                       [Scenario.graphql])))
           0 []).
Proof.
  assert (Forall (λ d', Deployment.name d' ≠ "BE") [Scenario.entryRest])
    as Hbefore by (repeat constructor; discriminate).
  split_and!; [exact Hbefore | reflexivity | discriminate |].
  apply (run_first_match "BE" None
           (Scenario.start
              [Scenario.entryRest; Scenario.entryQuery; Scenario.entryMutation]
              [Scenario.graphql])
           (DeploymentConfig.mk 1 None
              [Scenario.entryRest; Scenario.entryQuery; Scenario.entryMutation])
           [Scenario.entryRest] Scenario.entryQuery [Scenario.entryMutation]);
    [reflexivity | reflexivity | exact Hbefore | reflexivity | discriminate].
Defined.

Lemma run_rejects_undeclared_module_witness :
  config (this (Scenario.start [Scenario.entryQuery; Fixture.entryGhost]
                  [Scenario.graphql]))
    = Some (DeploymentConfig.mk 1 None
              [Scenario.entryQuery; Fixture.entryGhost]) ∧
  [Scenario.entryQuery; Fixture.entryGhost] !! 1 = Some Fixture.entryGhost ∧
  Deployment.modules Fixture.entryGhost !! 1 = Some (bare "Ghost") ∧
  configCache
    (this (Scenario.start [Scenario.entryQuery; Fixture.entryGhost]
             [Scenario.graphql]))
    !! _moduleName (bare "Ghost") = None ∧
  ∃ e,
    run "BE" (Some true)
        (Scenario.start [Scenario.entryQuery; Fixture.entryGhost]
           [Scenario.graphql])
      = (inl (Assertion e),
         Scenario.start [Scenario.entryQuery; Fixture.entryGhost]
           [Scenario.graphql]).
Proof.
  split_and!; [reflexivity | reflexivity | reflexivity | vm_compute; reflexivity |].
  apply (run_rejects_undeclared_module "BE"
           (Scenario.start [Scenario.entryQuery; Fixture.entryGhost]
              [Scenario.graphql])
           (DeploymentConfig.mk 1 None
              [Scenario.entryQuery; Fixture.entryGhost])
           1 1 Fixture.entryGhost (bare "Ghost"));
    [reflexivity | reflexivity | reflexivity | vm_compute; reflexivity].
Defined.

Lemma addRunners_keyed_witness :
  keyed (Fixture.fresh [Scenario.entryQuery]) ∧
  keyed (addRunners [Scenario.graphql; Fixture.rest; Scenario.broken]
           (Fixture.fresh [Scenario.entryQuery])).
Proof.
  assert (keyed (Fixture.fresh [Scenario.entryQuery])) as Hkeyed
    by (intros k runner Hk; vm_compute in Hk; discriminate).
  split; [exact Hkeyed|].
  apply (addRunners_keyed [Scenario.graphql; Fixture.rest; Scenario.broken]
           (Fixture.fresh [Scenario.entryQuery])).
  exact Hkeyed.
Defined.

(** Two runners of type [GraphQL] in one chain: the later one is the
    one a run reaches. *)
Example addRunners_overwrites :
  runnerCache
    (addRunners [Scenario.graphql; Fixture.rest; Scenario.broken]
       (Fixture.fresh [Scenario.entryQuery])) !! "GraphQL"
    = Some Scenario.broken.
Proof. vm_compute; reflexivity. Qed.

Lemma run_dispatches_by_type_witness :
  keyed (this (Scenario.start [Scenario.entryQuery] [Scenario.graphql])) ∧
  config (this (Scenario.start [Scenario.entryQuery] [Scenario.graphql]))
    = Some (DeploymentConfig.mk 1 None [Scenario.entryQuery]) ∧
  firstNamed "BE" [Scenario.entryQuery] = Some Scenario.entryQuery ∧
  ∃ evs,
    trace (run "BE" (Some true)
             (Scenario.start [Scenario.entryQuery] [Scenario.graphql])).2
      = trace (Scenario.start [Scenario.entryQuery] [Scenario.graphql]) ++ evs ∧
    ∀ ev, ev ∈ evs → eventRunner ev = Deployment.type Scenario.entryQuery.
Proof.
  assert (keyed (this (Scenario.start [Scenario.entryQuery] [Scenario.graphql])))
    as Hkeyed.
  { intros k runner. simpl.
    destruct (decide ("GraphQL" = k)) as [<-|Hne].
    - rewrite lookup_insert_eq. by intros [= <-].
    - rewrite lookup_insert_ne by done. by rewrite lookup_empty. }
  split_and!; [exact Hkeyed | reflexivity | vm_compute; reflexivity |].
  apply (run_dispatches_by_type "BE" (Some true)
           (Scenario.start [Scenario.entryQuery] [Scenario.graphql])
           (run "BE" (Some true)
              (Scenario.start [Scenario.entryQuery] [Scenario.graphql])).1
           (run "BE" (Some true)
              (Scenario.start [Scenario.entryQuery] [Scenario.graphql])).2
           (DeploymentConfig.mk 1 None [Scenario.entryQuery])
           Scenario.entryQuery);
    [exact Hkeyed | reflexivity | vm_compute; reflexivity
    | vm_compute; reflexivity].
Defined.

(** ** The registry scan *)

Section Registry.
Context `{Disk} {R : Type}.

Lemma scanModule_inr modulesPath (this this' : Framo R) module :
  scanModule modulesPath this module = inr this' →
  ∃ c, declares modulesPath module c ∧
    configCache this !! ModuleConfig.name c = None ∧
    config this' = config this ∧ runnerCache this' = runnerCache this ∧
    configCache this' = <[ModuleConfig.name c := c]> (configCache this) ∧
    modulePathCache this'
      = <[ModuleConfig.name c := path_join modulesPath module]>
          (modulePathCache this).
Proof.
  unfold scanModule, declares, configPathOf.
  destruct (readModuleConfig _) as [e|c]; simpl; [discriminate|].
  destruct (configCache this !! ModuleConfig.name c) eqn:Hhit; [discriminate|].
  intros [= <-]. by exists c.
Qed.

(** What a scan that returns has read and stored. *)
Lemma scan_inr modulesPath dirs (this this' : Framo R) :
  forS (scanModule modulesPath) this dirs = inr this' →
  ∃ configs,
    Forall2 (declares modulesPath) dirs configs ∧
    NoDup (ModuleConfig.name <$> configs) ∧
    (∀ c, c ∈ configs → configCache this !! ModuleConfig.name c = None) ∧
    config this' = config this ∧ runnerCache this' = runnerCache this ∧
    (∀ i dir c, dirs !! i = Some dir → configs !! i = Some c →
       configCache this' !! ModuleConfig.name c = Some c ∧
       modulePathCache this' !! ModuleConfig.name c
         = Some (path_join modulesPath dir)) ∧
    (∀ n, n ∉ ModuleConfig.name <$> configs →
       configCache this' !! n = configCache this !! n ∧
       modulePathCache this' !! n = modulePathCache this !! n) ∧
    size (configCache this') = size (configCache this) + length dirs ∧
    dom (configCache this')
      = list_to_set (ModuleConfig.name <$> configs) ∪ dom (configCache this) ∧
    dom (modulePathCache this')
      = list_to_set (ModuleConfig.name <$> configs)
        ∪ dom (modulePathCache this).
Proof.
  revert this. induction dirs as [|dir dirs IH]; intros this; simpl.
  - intros [= <-]. exists [].
    split_and!;
      [ constructor | constructor
      | intros c Hc; by apply elem_of_nil in Hc
      | done | done
      | intros i ? ? Hi; by rewrite lookup_nil in Hi
      | done | simpl; lia | simpl; set_solver | simpl; set_solver ].
  - intros (this1 & Hstep & Hrest)%bind_inr.
    apply scanModule_inr in Hstep
      as (c & Hdecl & Hfresh & Hcfg1 & Hrun1 & Hcc1 & Hmp1).
    apply IH in Hrest
      as (configs & Hall & Hnodup & Hfresh' & Hcfg & Hrun & Hidx & Hframe
          & Hsize & Hdomc & Hdomp).
    assert (ModuleConfig.name c ∉ ModuleConfig.name <$> configs) as Hnotin.
    { intros (c' & Heq & Hc')%list_elem_of_fmap.
      specialize (Hfresh' c' Hc'). rewrite Hcc1, <-Heq in Hfresh'.
      by rewrite lookup_insert_eq in Hfresh'. }
    exists (c :: configs). split_and!.
    + by constructor.
    + rewrite fmap_cons. by constructor.
    + intros c' [->|Hc']%elem_of_cons; [done|].
      specialize (Hfresh' c' Hc'). rewrite Hcc1 in Hfresh'.
      by apply lookup_insert_None in Hfresh' as [? _].
    + congruence.
    + congruence.
    + intros [|i] dir' c'; simpl.
      * intros [= <-] [= <-]. destruct (Hframe _ Hnotin) as [-> ->].
        by rewrite Hcc1, Hmp1, !lookup_insert_eq.
      * apply Hidx.
    + intros n Hn. rewrite fmap_cons in Hn.
      apply not_elem_of_cons in Hn as [Hne Hn].
      destruct (Hframe n Hn) as [-> ->].
      by rewrite Hcc1, Hmp1, !lookup_insert_ne.
    + rewrite Hsize, Hcc1, map_size_insert_None by done. lia.
    + rewrite Hdomc, Hcc1, dom_insert_L, fmap_cons. simpl. set_solver.
    + rewrite Hdomp, Hmp1, dom_insert_L, fmap_cons. simpl. set_solver.
Qed.

Lemma scan_total modulesPath dirs configs (this : Framo R) :
  Forall2 (declares modulesPath) dirs configs →
  NoDup (ModuleConfig.name <$> configs) →
  (∀ c, c ∈ configs → configCache this !! ModuleConfig.name c = None) →
  ∃ this', forS (scanModule modulesPath) this dirs = inr this'.
Proof.
  intros Hall. revert this.
  induction Hall as [|dir c dirs configs Hdecl _ IH]; intros this Hnodup Hfresh;
    simpl; [eauto|].
  rewrite fmap_cons in Hnodup. apply NoDup_cons in Hnodup as [Hnotin Hnodup].
  assert (∃ this1, scanModule modulesPath this dir = inr this1 ∧
            configCache this1
              = <[ModuleConfig.name c := c]> (configCache this))
    as (this1 & Hstep & Hcc1).
  { unfold scanModule. cbv zeta. unfold declares, configPathOf in Hdecl.
    rewrite Hdecl. simpl. rewrite (Hfresh c) by left. eauto. }
  rewrite Hstep. simpl. apply IH; [done|]. intros c' Hc'.
  rewrite Hcc1, lookup_insert_ne; [apply Hfresh; by right|].
  intros Heq. apply Hnotin. rewrite Heq. by apply list_elem_of_fmap_2.
Qed.

Lemma declares_functional modulesPath dirs configs configs' :
  Forall2 (declares modulesPath) dirs configs →
  Forall2 (declares modulesPath) dirs configs' →
  configs = configs'.
Proof.
  intros Hall. revert configs'.
  induction Hall as [|dir c dirs configs Hdecl _ IH]; intros configs';
    inversion 1 as [|? c' ? configs'' Hdecl' Hall']; subst; [done|].
  unfold declares in Hdecl, Hdecl'. rewrite Hdecl in Hdecl'.
  f_equal; [by simplify_eq | by apply IH].
Qed.

(** When the module root can be listed and every module directory has a
    readable declaration, the scan returns exactly when no two directories
    declare the same name and none declares a name already cached. *)
Theorem scan_succeeds_iff modulesPath ents configs (this : Framo R) :
  readdirSync modulesPath = inr ents →
  Forall2 (declares modulesPath) (moduleDirectories ents) configs →
  (∃ this', _loadConfigCache modulesPath this = inr this') ↔
    NoDup (ModuleConfig.name <$> configs) ∧
    ∀ c, c ∈ configs → configCache this !! ModuleConfig.name c = None.
Proof.
  intros Hents Hall. unfold _loadConfigCache. rewrite Hents. simpl. split.
  - intros [this' Hscan].
    apply scan_inr in Hscan as (configs' & Hall' & Hnodup & Hfresh & _).
    by rewrite (declares_functional _ _ _ _ Hall Hall').
  - intros [Hnodup Hfresh]. by eapply scan_total.
Qed.

(** A scan that returns has indexed every module directory by the name
    its declaration gives, not by the directory's own name: the
    declaration is cached under that name, and so is the directory's
    path.  Names no directory declares are as they were, and so are the
    manifest and the runner registry. *)
Theorem scan_indexes_by_declared_name modulesPath ents (this this' : Framo R) :
  readdirSync modulesPath = inr ents →
  _loadConfigCache modulesPath this = inr this' →
  (∀ dir c, dir ∈ moduleDirectories ents → declares modulesPath dir c →
     configCache this' !! ModuleConfig.name c = Some c ∧
     modulePathCache this' !! ModuleConfig.name c
       = Some (path_join modulesPath dir)) ∧
  (∀ n, (∀ dir c, dir ∈ moduleDirectories ents →
           declares modulesPath dir c → ModuleConfig.name c ≠ n) →
     configCache this' !! n = configCache this !! n ∧
     modulePathCache this' !! n = modulePathCache this !! n) ∧
  config this' = config this ∧ runnerCache this' = runnerCache this.
Proof.
  intros Hents. unfold _loadConfigCache. rewrite Hents. simpl.
  intros (configs & Hall & _ & _ & Hcfg & Hrun & Hidx & Hframe & _)%scan_inr.
  split_and!; [| |done..].
  - intros dir c [i Hi]%list_elem_of_lookup_1 Hdecl.
    destruct (Forall2_lookup_l _ _ _ _ _ Hall Hi) as (c' & Hc' & Hdecl').
    unfold declares in Hdecl, Hdecl'. rewrite Hdecl in Hdecl'. simplify_eq.
    by eapply Hidx.
  - intros n Hn. apply Hframe.
    intros (c & -> & [i Hi]%list_elem_of_lookup_1)%list_elem_of_fmap.
    destruct (Forall2_lookup_r _ _ _ _ _ Hall Hi) as (dir & Hdir & Hdecl).
    by eapply Hn; [eapply list_elem_of_lookup_2|..].
Qed.

(** After the scan of a fresh instance the two caches have the same keys,
    and the registry holds as many declarations as the module root has
    directories: entries that are not directories are not counted. *)
Theorem scan_fresh_instance modulesPath ents (this this' : Framo R) :
  configCache this = ∅ → modulePathCache this = ∅ →
  readdirSync modulesPath = inr ents →
  _loadConfigCache modulesPath this = inr this' →
  dom (configCache this') = dom (modulePathCache this') ∧
  size (configCache this')
    = length (filter (λ ent, Dirent.isDirectory ent = true) ents).
Proof.
  intros Hcc Hmp Hents. unfold _loadConfigCache. rewrite Hents. simpl.
  intros (configs & _ & _ & _ & _ & _ & _ & _ & Hsize & Hdomc & Hdomp)%scan_inr.
  split.
  - by rewrite Hdomc, Hdomp, Hcc, Hmp, !dom_empty_L.
  - rewrite Hsize, Hcc, map_size_empty. unfold moduleDirectories.
    by rewrite length_fmap.
Qed.

Lemma forS_inl {E S A : Type} (body : S → A → E + S) (s : S) (xs : list A)
    (e : E) :
  forS body s xs = inl e →
  ∃ before x after s1, xs = before ++ x :: after ∧
    forS body s before = inr s1 ∧ body s1 x = inl e.
Proof.
  revert s. induction xs as [|x xs IH]; intros s; simpl; [discriminate|].
  destruct (body s x) as [e'|s1] eqn:Hx; simpl.
  - intros [= <-]. by exists [], x, xs, s.
  - intros (before & y & after & s2 & -> & Hbefore & Hy)%IH.
    exists (x :: before), y, after, s2. split_and!; [done| |done].
    simpl. by rewrite Hx.
Qed.

Lemma scanModule_inl modulesPath (this : Framo R) module e :
  scanModule modulesPath this module = inl (Assertion e) →
  ∃ c, declares modulesPath module c ∧
    is_Some (configCache this !! ModuleConfig.name c) ∧
    e = conflictError (ModuleConfig.name c) (path_join modulesPath module).
Proof.
  unfold scanModule, declares, configPathOf.
  destruct (readModuleConfig _) as [x|c]; simpl; [discriminate|].
  destruct (configCache this !! ModuleConfig.name c) eqn:Hhit; [|discriminate].
  intros [= <-]. exists c. eauto.
Qed.

Lemma prefix_refl (s : string) : String.prefix s s = true.
Proof.
  induction s as [|a s IH]; simpl; [done|]. by destruct (Ascii.ascii_dec a a).
Qed.

Lemma conflictError_names (name modulePath : string) :
  names (conflictError name modulePath) name = true ∧
  names (conflictError name modulePath) modulePath = true.
Proof.
  unfold names, conflictError, conflictMessage; cbn [message]. split.
  - apply includes_append_l, includes_here, prefix_append.
  - do 3 apply includes_append_l. apply includes_here, prefix_refl.
Qed.

(** When the scan fails on an assertion, two module directories declare
    the same name (or a directory declares a name that was already
    cached); the error names that name and the path of the later of the
    two directories, the one being scanned when the clash is found. *)
Theorem scan_conflict modulesPath (this : Framo R) e :
  _loadConfigCache modulesPath this = inl (Assertion e) →
  ∃ ents before dir after c,
    readdirSync modulesPath = inr ents ∧
    moduleDirectories ents = before ++ dir :: after ∧
    declares modulesPath dir c ∧
    (is_Some (configCache this !! ModuleConfig.name c) ∨
     ∃ dir' c', dir' ∈ before ∧ declares modulesPath dir' c' ∧
       ModuleConfig.name c' = ModuleConfig.name c) ∧
    e = conflictError (ModuleConfig.name c) (path_join modulesPath dir) ∧
    names e (ModuleConfig.name c) = true ∧
    names e (path_join modulesPath dir) = true.
Proof.
  unfold _loadConfigCache.
  destruct (readdirSync modulesPath) as [x|ents]; simpl; [discriminate|].
  intros (before & dir & after & this1 & Hdirs & Hbefore & Hdir)%forS_inl.
  apply scanModule_inl in Hdir as (c & Hdecl & Hhit & ->).
  apply scan_inr in Hbefore
    as (configs & Hall & _ & _ & _ & _ & _ & Hframe & _).
  destruct (conflictError_names (ModuleConfig.name c)
              (path_join modulesPath dir)) as [Hname Hpath].
  exists ents, before, dir, after, c. split_and!; try done.
  destruct (decide (ModuleConfig.name c ∈ ModuleConfig.name <$> configs))
    as [Hin|Hnotin].
  - right. apply list_elem_of_fmap in Hin as (c' & Heq & Hc').
    apply list_elem_of_lookup_1 in Hc' as [i Hi].
    destruct (Forall2_lookup_r _ _ _ _ _ Hall Hi) as (dir' & Hdir' & Hdecl').
    exists dir', c'. split_and!; [|done..].
    by eapply list_elem_of_lookup_2.
  - left. destruct (Hframe _ Hnotin) as [<- _]. done.
Qed.

End Registry.

(** *** The scan of two module roots *)

Section RegistryOnDisk.
#[local] Existing Instance Scenario.node.
#[local] Existing Instance Fixture.disk.

Lemma scan_succeeds_iff_witness :
  readdirSync "modules"
    = inr [Dirent.mk "account" true; Dirent.mk "README.md" false;
           Dirent.mk "member" true] ∧
  Forall2 (declares "modules")
    (moduleDirectories
       [Dirent.mk "account" true; Dirent.mk "README.md" false;
        Dirent.mk "member" true])
    [Scenario.account; Scenario.member] ∧
  ((∃ this', _loadConfigCache "modules" (Fixture.fresh []) = inr this') ↔
     NoDup (ModuleConfig.name <$> [Scenario.account; Scenario.member]) ∧
     ∀ c, c ∈ [Scenario.account; Scenario.member] →
       configCache (Fixture.fresh []) !! ModuleConfig.name c = None).
Proof.
  assert (Forall2 (declares "modules")
            (moduleDirectories
               [Dirent.mk "account" true; Dirent.mk "README.md" false;
                Dirent.mk "member" true])
            [Scenario.account; Scenario.member]) as Hall
    by (repeat constructor).
  split_and!; [reflexivity | exact Hall |].
  apply (scan_succeeds_iff "modules"
           [Dirent.mk "account" true; Dirent.mk "README.md" false;
            Dirent.mk "member" true]
           [Scenario.account; Scenario.member] (Fixture.fresh []));
    [reflexivity | exact Hall].
Defined.

Lemma scan_indexes_by_declared_name_witness :
  readdirSync "modules"
    = inr [Dirent.mk "account" true; Dirent.mk "README.md" false;
           Dirent.mk "member" true] ∧
  _loadConfigCache "modules" (Fixture.fresh [])
    = inr (mkFramo (Scenario.manifest []) Scenario.registry ∅ Scenario.paths) ∧
  (∀ dir c,
     dir ∈ moduleDirectories
             [Dirent.mk "account" true; Dirent.mk "README.md" false;
              Dirent.mk "member" true] →
     declares "modules" dir c →
     Scenario.registry !! ModuleConfig.name c = Some c ∧
     Scenario.paths !! ModuleConfig.name c = Some (path_join "modules" dir)).
Proof.
  split_and!; [reflexivity | vm_compute; reflexivity |].
  apply (scan_indexes_by_declared_name "modules"
           [Dirent.mk "account" true; Dirent.mk "README.md" false;
            Dirent.mk "member" true]
           (Fixture.fresh [])
           (mkFramo (Scenario.manifest []) Scenario.registry ∅ Scenario.paths));
    [reflexivity | vm_compute; reflexivity].
Defined.

Lemma scan_fresh_instance_witness :
  configCache (Fixture.fresh []) = ∅ ∧
  modulePathCache (Fixture.fresh []) = ∅ ∧
  _loadConfigCache "modules" (Fixture.fresh [])
    = inr (mkFramo (Scenario.manifest []) Scenario.registry ∅ Scenario.paths) ∧
  dom Scenario.registry = dom Scenario.paths ∧
  size Scenario.registry
    = length
        (filter (λ ent, Dirent.isDirectory ent = true)
           [Dirent.mk "account" true; Dirent.mk "README.md" false;
            Dirent.mk "member" true]).
Proof.
  split; [reflexivity|]. split; [reflexivity|].
  split; [vm_compute; reflexivity|].
  apply (scan_fresh_instance "modules"
           [Dirent.mk "account" true; Dirent.mk "README.md" false;
            Dirent.mk "member" true]
           (Fixture.fresh [])
           (mkFramo (Scenario.manifest []) Scenario.registry ∅ Scenario.paths));
    [reflexivity | reflexivity | reflexivity | vm_compute; reflexivity].
Defined.

Lemma scan_conflict_witness :
  _loadConfigCache "clash" (Fixture.fresh [])
    = inl (Assertion (conflictError "Account" "clash/billing")) ∧
  ∃ ents before dir after c,
    readdirSync "clash" = inr ents ∧
    moduleDirectories ents = before ++ dir :: after ∧
    declares "clash" dir c ∧
    (is_Some (configCache (Fixture.fresh []) !! ModuleConfig.name c) ∨
     ∃ dir' c', dir' ∈ before ∧ declares "clash" dir' c' ∧
       ModuleConfig.name c' = ModuleConfig.name c) ∧
    conflictError "Account" "clash/billing"
      = conflictError (ModuleConfig.name c) (path_join "clash" dir) ∧
    names (conflictError "Account" "clash/billing") (ModuleConfig.name c)
      = true ∧
    names (conflictError "Account" "clash/billing") (path_join "clash" dir)
      = true.
Proof.
  split; [vm_compute; reflexivity|].
  apply (scan_conflict "clash" (Fixture.fresh [])
           (conflictError "Account" "clash/billing")).
  vm_compute; reflexivity.
Defined.

(** The message of that clash, written out. *)
Example scan_conflict_message :
  message (conflictError "Account" "clash/billing")
    = Some "Module Account conflict, already found at clash/billing".
Proof. reflexivity. Qed.

End RegistryOnDisk.

(** ** The executor against the step-by-step execution *)

Section ExecutorSteps.
Context `{Host}.

Lemma after_nothing (σ : State) : after σ (inr tt, world σ, []) = (inr tt, σ).
Proof. unfold after. destruct σ. simpl. by rewrite app_nil_r. Qed.

Lemma after_failure (σ : State) (e : Error) :
  after σ (inl e, world σ, []) = (inl e, σ).
Proof. unfold after. destruct σ. simpl. by rewrite app_nil_r. Qed.

Lemma loadCommand_loadStep runner d module load σ :
  loadCommand runner d module load σ
    = after σ (loadStep (modulePathCache (this σ)) runner d module load
                 (world σ)).
Proof.
  unfold loadCommand, loadStep, artifactPath. rewrite bind_action. simpl.
  rewrite _moduleName_listedName.
  destruct (modulePathCache (this σ) !! listedName module) as [root|];
    [|by rewrite after_failure].
  destruct (truthy root); [|by rewrite after_failure].
  rewrite bind_action. unfold call, host, after. simpl.
  destruct (require (path_join root (toLowerCase load)) (world σ))
    as [[e|artifact] w1]; simpl; [by rewrite app_nil_r|].
  by destruct (Runner.onLoad runner artifact d w1) as [[e|[]] w2].
Qed.

Lemma loadSteps_app paths runner d steps1 steps2 w :
  loadSteps paths runner d (steps1 ++ steps2) w =
    match loadSteps paths runner d steps1 w with
    | (inl e, w1, evs) => (inl e, w1, evs)
    | (inr _, w1, evs) =>
        match loadSteps paths runner d steps2 w1 with
        | (r, w2, evs') => (r, w2, evs ++ evs')
        end
    end.
Proof.
  revert w. induction steps1 as [|[module load] steps1 IH]; intros w; simpl.
  - by destruct (loadSteps paths runner d steps2 w) as [[r w2] evs'].
  - destruct (loadStep paths runner d module load w) as [[[e|[]] w1] evs];
      [done|].
    rewrite IH.
    destruct (loadSteps paths runner d steps1 w1) as [[[e|[]] w2] evs1];
      [done|].
    destruct (loadSteps paths runner d steps2 w2) as [[r w3] evs2].
    by rewrite app_assoc.
Qed.

(** A loop whose body performs the steps of each element performs the
    steps of all elements, in order. *)
Lemma forA_loadSteps {A : Type} (body : A → Action unit)
    (f : A → list (ModuleRef * string)) paths runner d (xs : list A) :
  (∀ x σ, modulePathCache (this σ) = paths →
     body x σ = after σ (loadSteps paths runner d (f x) (world σ))) →
  ∀ σ, modulePathCache (this σ) = paths →
    forA body xs σ = after σ (loadSteps paths runner d (xs ≫= f) (world σ)).
Proof.
  intros Hbody. induction xs as [|x xs IH]; intros σ Hpaths.
  - symmetry. apply after_nothing.
  - cbn [forA]. rewrite bind_action, (Hbody x σ Hpaths), bind_cons, loadSteps_app.
    destruct (loadSteps paths runner d (f x) (world σ)) as [[[e|[]] w1] evs];
      [done|].
    unfold after at 1. cbn [fst snd]. rewrite IH by done.
    unfold after. cbn [fst snd this world trace].
    destruct (loadSteps paths runner d (xs ≫= f) w1) as [[r w2] evs'].
    cbn [fst snd]. by rewrite app_assoc.
Qed.

Lemma loadModules_loadSteps runner d σ :
  forA (λ module, forA (loadCommand runner d module) (toLoad d module))
       (Deployment.modules d) σ
    = after σ (loadSteps (modulePathCache (this σ)) runner d (stepsOf d)
                 (world σ)).
Proof.
  unfold stepsOf. apply forA_loadSteps; [|done].
  intros module σ1 Hpaths1. cbn beta.
  rewrite <-(toLoad_contribution d module).
  apply forA_loadSteps; [|done].
  intros load σ2 Hpaths2. rewrite loadCommand_loadStep, Hpaths2. simpl.
  destruct (loadStep _ runner d module load (world σ2)) as [[[e|[]] w1] evs];
    [done|].
  by rewrite app_nil_r.
Qed.

(** A run past verification on a matched entry whose runner is registered
    is the step-by-step execution of that entry: its result, the world it
    leaves and the hooks it entered are those of the load steps taken in
    order (references in manifest order, commands in their order), ended
    by the first step that fails, and followed by the run hook only when
    every load step succeeded. *)
Theorem run_performs_entry name verify σ r σ' cfg d runner :
  config (this σ) = Some cfg →
  firstNamed name (DeploymentConfig.deployment cfg) = Some d →
  runnerCache (this σ) !! Deployment.type d = Some runner →
  verification_passes verify (this σ) →
  run name verify σ = (r, σ') →
  ∃ evs,
    performed (modulePathCache (this σ)) runner d (world σ)
      = (r, world σ', evs) ∧
    trace σ' = trace σ ++ evs.
Proof.
  intros Hcfg Hd Hrunner Hpass.
  rewrite (run_proceeds name verify cfg σ Hpass Hcfg).
  rewrite forDeployment_firstNamed, Hd.
  unfold execute. rewrite bind_action. simpl.
  rewrite Hrunner, bind_action. simpl.
  rewrite bind_action, loadModules_loadSteps. unfold performed. simpl.
  destruct (loadSteps (modulePathCache (this σ)) runner d (stepsOf d) (world σ))
    as [[[e|[]] w1] evs]; unfold after; simpl.
  - intros [= <- <-]. by exists evs.
  - rewrite bind_action. unfold call, host. simpl.
    destruct (Runner.run runner w1) as [[e|[]] w2]; simpl;
      intros [= <- <-]; simpl; eexists; (split; [done|]);
      by rewrite app_assoc.
Qed.

End ExecutorSteps.

(** A load hook that throws on the first module: one load step was taken,
    the run hook was not entered, and the run fails with what the hook
    threw. *)
Lemma run_performs_entry_witness :
  config (this (Scenario.start [Scenario.entryQuery] [Scenario.broken]))
    = Some (DeploymentConfig.mk 1 None [Scenario.entryQuery]) ∧
  firstNamed "BE" [Scenario.entryQuery] = Some Scenario.entryQuery ∧
  runnerCache (this (Scenario.start [Scenario.entryQuery] [Scenario.broken]))
    !! Deployment.type Scenario.entryQuery = Some Scenario.broken ∧
  verification_passes (Some true)
    (this (Scenario.start [Scenario.entryQuery] [Scenario.broken])) ∧
  run "BE" (Some true)
      (Scenario.start [Scenario.entryQuery] [Scenario.broken])
    = (inl (@Thrown Scenario.node "load failed"),
       (run "BE" (Some true)
          (Scenario.start [Scenario.entryQuery] [Scenario.broken])).2) ∧
  ∃ evs,
    performed
      (modulePathCache
         (this (Scenario.start [Scenario.entryQuery] [Scenario.broken])))
      Scenario.broken Scenario.entryQuery
      (world (Scenario.start [Scenario.entryQuery] [Scenario.broken]))
      = (inl (@Thrown Scenario.node "load failed"),
         world (run "BE" (Some true)
                  (Scenario.start [Scenario.entryQuery] [Scenario.broken])).2,
         evs) ∧
    trace (run "BE" (Some true)
             (Scenario.start [Scenario.entryQuery] [Scenario.broken])).2
      = trace (Scenario.start [Scenario.entryQuery] [Scenario.broken]) ++ evs.
Proof.
  assert (verification_passes (Some true)
            (this (Scenario.start [Scenario.entryQuery] [Scenario.broken])))
    as Hpass by (intros _; vm_compute; reflexivity).
  split_and!; [reflexivity | vm_compute; reflexivity | vm_compute; reflexivity
              | exact Hpass | vm_compute; reflexivity |].
  apply (run_performs_entry "BE" (Some true)
           (Scenario.start [Scenario.entryQuery] [Scenario.broken])
           (inl (@Thrown Scenario.node "load failed"))
           (run "BE" (Some true)
              (Scenario.start [Scenario.entryQuery] [Scenario.broken])).2
           (DeploymentConfig.mk 1 None [Scenario.entryQuery])
           Scenario.entryQuery Scenario.broken);
    [reflexivity | vm_compute; reflexivity | vm_compute; reflexivity
    | exact Hpass | vm_compute; reflexivity].
Defined.

(** The step-by-step execution of that entry on the broken runner, written
    out. *)
Example performed_broken :
  performed Scenario.paths Scenario.broken Scenario.entryQuery 0
    = (inl (@Thrown Scenario.node "load failed"), 0,
       [OnLoad "GraphQL" "modules/account/query" Scenario.entryQuery]).
Proof. vm_compute; reflexivity. Qed.
